(** * Mistake Logger: the rule-based field extractor of [app.py]

    A shallow embedding of the pure core of [app.py]
    ([PARSING_RULES], [parse_text], [is_valid_data] and the local
    [clean_text_field] of [save_to_csv]) together with the fragment of
    the Python built-ins the core calls ([str.strip], [str.lower],
    [str.capitalize], [str.split], [in], [int], f-string formatting of an
    [int], [re.search] and [re.sub]).

    Modelling conventions.
    - A Python [str] is a [list ascii]: the UTF-8 bytes of the text.  The
      character classifications ([str.isspace], [\s], [\w], [\d], case
      mapping) are the CPython ones on the ASCII range; a byte above 127
      is in no class and has no case, which is what CPython does for a
      symbol such as the check mark of [PARSING_RULES].  Text with
      non-ASCII letters, digits or blanks is outside the model.
    - A Python [dict] with [str] keys is a [gmap string _].
    - A call that can raise returns a [result]; [None] is [option].
    - Patterns are kept as the source writes them (raw strings) and are
      compiled by [re_compile] to a syntax tree that a backtracking
      matcher in continuation-passing style interprets with the priorities
      of CPython's [sre] engine under
      [re.IGNORECASE | re.DOTALL | re.MULTILINE]. *)

From Stdlib Require Import Ascii NArith ZArith Bool Decimal.
From stdpp Require Import gmap strings list fin_maps.

Local Open Scope Z_scope.

(** ** Python values *)

Abbreviation str := (list ascii).

(** [py "text"] is the [str] with the bytes of the literal. *)
Definition py (s : string) : str := String.list_ascii_of_string s.

Inductive exn : Type :=
| AttributeError   (* attribute access on [None] *)
| KeyError         (* [d[k]] for a key that [d] does not have *)
| ReError.         (* [re.error]: the pattern does not compile *)

Inductive result (A : Type) : Type :=
| Return (a : A)
| Raise (e : exn).
Arguments Return {A} a.
Arguments Raise {A} e.

Definition bind {A B : Type} (r : result A) (f : A -> result B) : result B :=
  match r with
  | Return a => f a
  | Raise e => Raise e
  end.

Notation "x <- r ;;; k" := (bind r (fun x => k))
  (at level 100, r at next level, right associativity).

(** ** Characters *)

Module Char.

Definition code (c : ascii) : N := N_of_ascii c.

Definition between (lo hi : N) (c : ascii) : bool :=
  ((lo <=? code c) && (code c <=? hi))%N.

(** [Py_UNICODE_ISSPACE] on the ASCII range ([_Py_ascii_whitespace]):
    TAB LF VT FF CR, FS GS RS US and the space.  [str.strip],
    [str.isspace] and the pattern class [\s] all use it. *)
Definition isspace (c : ascii) : bool :=
  between 9 13 c || between 28 32 c.

(** [Py_ISSPACE], the C-locale blanks that [int] skips in an ASCII
    string: TAB LF VT FF CR and the space. *)
Definition is_c_space (c : ascii) : bool :=
  between 9 13 c || (code c =? 32)%N.

Definition isupper (c : ascii) : bool := between 65 90 c.
Definition islower (c : ascii) : bool := between 97 122 c.
Definition isdigit (c : ascii) : bool := between 48 57 c.
Definition isalpha (c : ascii) : bool := isupper c || islower c.

(** the pattern class [\w] *)
Definition isword (c : ascii) : bool :=
  isalpha c || isdigit c || (code c =? 95)%N.

Definition lower (c : ascii) : ascii :=
  if isupper c then ascii_of_N (code c + 32) else c.

Definition upper (c : ascii) : ascii :=
  if islower c then ascii_of_N (code c - 32) else c.

Definition eqb (a b : ascii) : bool := Ascii.eqb a b.

Definition digit_value (c : ascii) : Z := Z.of_N (code c) - 48.

End Char.

(** ** [str] methods *)

Fixpoint lstrip (s : str) : str :=
  match s with
  | c :: t => if Char.isspace c then lstrip t else s
  | [] => []
  end.

Fixpoint rstrip (s : str) : str :=
  match s with
  | [] => []
  | c :: t =>
      match rstrip t with
      | [] => if Char.isspace c then [] else [c]
      | t' => c :: t'
      end
  end.

(** [s.strip()] *)
Definition str_strip (s : str) : str := rstrip (lstrip s).

(** [s.lower()] *)
Definition str_lower (s : str) : str := map Char.lower s.

(** [s.capitalize()]: the first character upper-cased, the others
    lower-cased. *)
Definition str_capitalize (s : str) : str :=
  match s with
  | [] => []
  | c :: t => Char.upper c :: map Char.lower t
  end.

Fixpoint startswith (p s : str) : bool :=
  match p, s with
  | [], _ => true
  | a :: p', b :: s' => Char.eqb a b && startswith p' s'
  | _ :: _, [] => false
  end.

(** [p in s] *)
Fixpoint str_contains (p s : str) : bool :=
  startswith p s ||
  match s with
  | [] => false
  | _ :: t => str_contains p t
  end.

(** [s.split(sep)] for a one-character separator: the pieces between the
    separators, at least one piece. *)
Fixpoint split_on (sep : ascii) (s : str) (cur : str) : list str :=
  match s with
  | [] => [rev cur]
  | c :: t =>
      if Char.eqb c sep then rev cur :: split_on sep t []
      else split_on sep t (c :: cur)
  end.

Definition str_split (sep : ascii) (s : str) : list str := split_on sep s [].

(** ** [int(s)] and the formatting of an [int] *)

Module PyInt.

Fixpoint skip_c_space (s : str) : str :=
  match s with
  | c :: t => if Char.is_c_space c then skip_c_space t else s
  | [] => []
  end.

(** The digit loop of [long_from_string_base]: digits and single
    underscores between them.  [prev_us] says that the previous
    character was an underscore, [ndigits] counts the digits and [acc]
    is their value.  The result is [None] on a doubled or trailing
    underscore, otherwise the value, the digit count and the unread
    rest. *)
Fixpoint scan (s : str) (prev_us : bool) (ndigits : nat) (acc : Z)
  : option (Z * nat * str) :=
  match s with
  | c :: t =>
      if Char.isdigit c then
        scan t false (S ndigits) (10 * acc + Char.digit_value c)
      else if Char.eqb c "_" then
        if prev_us then None else scan t true ndigits acc
      else if prev_us then None else Some (acc, ndigits, s)
  | [] => if prev_us then None else Some (acc, ndigits, [])
  end.

(** [int(s)] in base 10; [None] stands for [ValueError].
    [max_str_digits] is [sys.get_int_max_str_digits()]: 0 switches the
    limit off, CPython's default is 4300 and the limit only applies
    above 640 digits. *)
Definition parse (max_str_digits : nat) (s : str) : option Z :=
  let s1 := skip_c_space s in
  let '(neg, s2) :=
    match s1 with
    | c :: t =>
        if Char.eqb c "+" then (false, t)
        else if Char.eqb c "-" then (true, t)
        else (false, s1)
    | [] => (false, s1)
    end in
  match s2 with
  | [] => None
  | c :: _ =>
      if Char.eqb c "_" then None
      else
        match scan s2 false 0 0 with
        | None => None
        | Some (v, nd, rest) =>
            match nd, skip_c_space rest with
            | O, _ => None
            | _, _ :: _ => None
            | _, [] =>
                if Nat.ltb 640 nd && Nat.ltb 0 max_str_digits
                   && Nat.ltb max_str_digits nd
                then None
                else Some (if neg then - v else v)
            end
        end
  end.

Fixpoint uint_chars (d : Decimal.uint) : str :=
  match d with
  | Nil => []
  | D0 d => "0"%char :: uint_chars d
  | D1 d => "1"%char :: uint_chars d
  | D2 d => "2"%char :: uint_chars d
  | D3 d => "3"%char :: uint_chars d
  | D4 d => "4"%char :: uint_chars d
  | D5 d => "5"%char :: uint_chars d
  | D6 d => "6"%char :: uint_chars d
  | D7 d => "7"%char :: uint_chars d
  | D8 d => "8"%char :: uint_chars d
  | D9 d => "9"%char :: uint_chars d
  end.

(** [f"{n}"] for an [int] *)
Definition format (n : Z) : str :=
  match n with
  | Z0 => py "0"
  | Zpos p => uint_chars (Pos.to_uint p)
  | Zneg p => "-"%char :: uint_chars (Pos.to_uint p)
  end.

End PyInt.

(** ** Regular expressions: syntax

    The fragment of Python's pattern syntax that [app.py] uses: literals,
    [.], character sets with ranges and the classes [\s] [\d] [\w],
    greedy and lazy repetition of a one-character item, capturing and
    non-capturing groups, alternation, lookahead, [^], [$] and [\b]. *)

Inductive set_item : Type :=
| SChar (c : ascii)
| SRange (lo hi : ascii)
| SSpace                       (* \s *)
| SDigit                       (* \d *)
| SWord.                       (* \w *)

(** a pattern item that matches exactly one character *)
Inductive atom : Type :=
| ALit (c : ascii)
| AAny                                       (* . *)
| ASet (negate : bool) (items : list set_item).

Inductive regex : Type :=
| REmpty
| RAtom (a : atom)
| RRepeat (a : atom) (lo : nat) (hi : option nat) (greedy : bool)
| RCat (r1 r2 : regex)
| RAlt (r1 r2 : regex)
| RGroup (n : nat) (r : regex)               (* ( ... ), numbered from 1 *)
| RLookahead (r : regex)                     (* (?= ... ) *)
| RBol                                       (* ^ *)
| REol                                       (* $ *)
| RWordBoundary.                             (* \b *)

(** the number of capturing groups: the length of [match.groups()] *)
Fixpoint ngroups (r : regex) : nat :=
  match r with
  | RCat r1 r2 | RAlt r1 r2 => ngroups r1 + ngroups r2
  | RGroup _ r => S (ngroups r)
  | RLookahead r => ngroups r
  | _ => 0
  end.

Record re_flags : Type := Flags {
  IGNORECASE : bool;
  DOTALL : bool;
  MULTILINE : bool
}.

Definition no_flags : re_flags := Flags false false false.

(** ** Regular expressions: [re.compile]

    A recursive-descent parser for the fragment.  A pattern outside the
    fragment, or one that Python rejects, yields [None]. *)

Module ReParse.

Local Open Scope char_scope.

Definition LF : ascii := ascii_of_N 10.
Definition CR : ascii := ascii_of_N 13.
Definition TAB : ascii := ascii_of_N 9.

(** the character an escape stands for, inside and outside a set *)
Definition escaped_char (e : ascii) : option ascii :=
  match e with
  | "n" => Some LF
  | "r" => Some CR
  | "t" => Some TAB
  | _ => if Char.isalpha e || Char.isdigit e then None else Some e
  end.

Definition escaped_class (e : ascii) : option set_item :=
  match e with
  | "s" => Some SSpace
  | "d" => Some SDigit
  | "w" => Some SWord
  | _ => None
  end.

Definition set_escape (e : ascii) : option set_item :=
  match escaped_class e with
  | Some k => Some k
  | None => SChar <$> escaped_char e
  end.

(** the items of a set, after the opening bracket and the optional [^] *)
Fixpoint parse_set (s : str) (acc : list set_item)
  : option (list set_item * str) :=
  match s with
  | [] => None
  | "]" :: t => Some (rev acc, t)
  | "\" :: s1 =>
      match s1 with
      | e :: t =>
          match set_escape e with
          | Some it => parse_set t (it :: acc)
          | None => None
          end
      | [] => None
      end
  | c :: s1 =>
      match s1 with
      | "-" :: s2 =>
          match s2 with
          | "]" :: _ => parse_set s1 (SChar c :: acc)
          | "\" :: _ => None
          | d :: t =>
              if (Char.code c <=? Char.code d)%N
              then parse_set t (SRange c d :: acc)
              else None
          | [] => None
          end
      | _ => parse_set s1 (SChar c :: acc)
      end
  end.

Fixpoint parse_nat (s : str) (acc : nat) : nat * str :=
  match s with
  | c :: t =>
      if Char.isdigit c
      then parse_nat t (10 * acc + Z.to_nat (Char.digit_value c))%nat
      else (acc, s)
  | [] => (acc, [])
  end.

(** a trailing [?] makes the repetition lazy *)
Definition with_laziness (a : atom) (lo : nat) (hi : option nat) (s : str)
  : regex * str :=
  match s with
  | "?" :: t => (RRepeat a lo hi false, t)
  | _ => (RRepeat a lo hi true, s)
  end.

Definition parse_quant (a : atom) (s : str) : option (regex * str) :=
  match s with
  | "*" :: t => Some (with_laziness a 0 None t)
  | "+" :: t => Some (with_laziness a 1 None t)
  | "?" :: t => Some (with_laziness a 0 (Some 1%nat) t)
  | "{" :: t =>
      match t with
      | d :: _ =>
          if Char.isdigit d then
            match parse_nat t 0 with
            | (n, "}" :: t') => Some (with_laziness a n (Some n) t')
            | _ => None
            end
          else None
      | [] => None
      end
  | _ => Some (RAtom a, s)
  end.

Definition is_quantifier (c : ascii) : bool :=
  match c with
  | "*" | "+" | "?" | "{" => true
  | _ => false
  end.

(** groups and anchors are not repeated in the fragment *)
Definition unrepeated (r : regex) (s : str) (g : nat)
  : option (regex * str * nat) :=
  match s with
  | c :: _ => if is_quantifier c then None else Some (r, s, g)
  | [] => Some (r, s, g)
  end.

Definition quantified (a : atom) (s : str) (g : nat)
  : option (regex * str * nat) :=
  match parse_quant a s with
  | Some (r, s') => Some (r, s', g)
  | None => None
  end.

(** [g] is the number the next capturing group gets. *)
Fixpoint parse_alt (fuel : nat) (s : str) (g : nat)
  : option (regex * str * nat) :=
  match fuel with
  | O => None
  | S f =>
      match parse_seq f s g with
      | Some (r1, "|" :: s1, g1) =>
          match parse_alt f s1 g1 with
          | Some (r2, s2, g2) => Some (RAlt r1 r2, s2, g2)
          | None => None
          end
      | other => other
      end
  end
with parse_seq (fuel : nat) (s : str) (g : nat)
  : option (regex * str * nat) :=
  match fuel with
  | O => None
  | S f =>
      match s with
      | [] => Some (REmpty, s, g)
      | ")" :: _ | "|" :: _ => Some (REmpty, s, g)
      | _ =>
          match parse_item f s g with
          | Some (r1, s1, g1) =>
              match parse_seq f s1 g1 with
              | Some (r2, s2, g2) => Some (RCat r1 r2, s2, g2)
              | None => None
              end
          | None => None
          end
      end
  end
with parse_item (fuel : nat) (s : str) (g : nat)
  : option (regex * str * nat) :=
  match fuel with
  | O => None
  | S f =>
      match s with
      | [] => None
      | "(" :: "?" :: ":" :: t =>
          match parse_alt f t g with
          | Some (r, ")" :: t', g') => unrepeated r t' g'
          | _ => None
          end
      | "(" :: "?" :: "=" :: t =>
          match parse_alt f t g with
          | Some (r, ")" :: t', g') => unrepeated (RLookahead r) t' g'
          | _ => None
          end
      | "(" :: "?" :: _ => None
      | "(" :: t =>
          match parse_alt f t (S g) with
          | Some (r, ")" :: t', g') => unrepeated (RGroup g r) t' g'
          | _ => None
          end
      | "[" :: "^" :: t =>
          match parse_set t [] with
          | Some (items, t') => quantified (ASet true items) t' g
          | None => None
          end
      | "[" :: t =>
          match parse_set t [] with
          | Some (items, t') => quantified (ASet false items) t' g
          | None => None
          end
      | "\" :: "b" :: t => unrepeated RWordBoundary t g
      | "\" :: e :: t =>
          match escaped_class e with
          | Some k => quantified (ASet false [k]) t g
          | None =>
              match escaped_char e with
              | Some c => quantified (ALit c) t g
              | None => None
              end
          end
      | "\" :: [] => None
      | "." :: t => quantified AAny t g
      | "^" :: t => unrepeated RBol t g
      | "$" :: t => unrepeated REol t g
      | "*" :: _ | "+" :: _ | "?" :: _ | "{" :: _ => None
      | c :: t => quantified (ALit c) t g
      end
  end.

End ReParse.

(** [re.compile(pattern)]; [None] stands for [re.error] (and for a
    pattern outside the fragment). *)
Definition re_compile (pattern : string) : option regex :=
  let s := py pattern in
  match ReParse.parse_alt (4 * length s + 8) s 1 with
  | Some (r, [], _) => Some r
  | _ => None
  end.

(** ** Regular expressions: matching

    A cursor is a position in the subject text: its index, the character
    before it and the text after it. *)

Record cursor : Type := Cursor {
  pos : nat;
  prev : option ascii;
  rest : str
}.

(** the spans of the capturing groups, [None] for a group that did not
    take part in the match *)
Abbreviation captures := (list (option (nat * nat))).

Module Sre.

(** membership of a set item, on the case-folded character when
    [IGNORECASE] is set: the compiler folds the members of the set and
    the matcher folds the subject character *)
Definition item_matches (ic : bool) (x : ascii) (it : set_item) : bool :=
  match it with
  | SChar c =>
      if ic then Char.eqb (Char.lower c) (Char.lower x) else Char.eqb c x
  | SRange lo hi =>
      if ic then
        Char.between (Char.code lo) (Char.code hi) (Char.lower x)
        || Char.between (Char.code lo) (Char.code hi)
             (Char.upper (Char.lower x))
      else Char.between (Char.code lo) (Char.code hi) x
  | SSpace => Char.isspace x
  | SDigit => Char.isdigit x
  | SWord => Char.isword x
  end.

Definition atom_matches (fl : re_flags) (a : atom) (x : ascii) : bool :=
  match a with
  | ALit c =>
      if IGNORECASE fl then Char.eqb (Char.lower c) (Char.lower x)
      else Char.eqb c x
  | AAny => DOTALL fl || negb (Char.eqb x ReParse.LF)
  | ASet negate items =>
      xorb negate (existsb (item_matches (IGNORECASE fl) x) items)
  end.

Definition is_linebreak (c : ascii) : bool := Char.eqb c ReParse.LF.

(** [^]: at the start of the text, and with [MULTILINE] after each
    newline *)
Definition at_bol (fl : re_flags) (cur : cursor) : bool :=
  match prev cur with
  | None => true
  | Some c => MULTILINE fl && is_linebreak c
  end.

(** [$]: at the end of the text or before its final newline, and with
    [MULTILINE] before each newline *)
Definition at_eol (fl : re_flags) (cur : cursor) : bool :=
  match rest cur with
  | [] => true
  | c :: t =>
      is_linebreak c && (MULTILINE fl || match t with [] => true | _ => false end)
  end.

(** [\b]: exactly one of the two neighbours is a word character *)
Definition at_boundary (cur : cursor) : bool :=
  let before := match prev cur with Some c => Char.isword c | None => false end in
  let after := match rest cur with c :: _ => Char.isword c | [] => false end in
  xorb before after.

Definition under_max (n : nat) (hi : option nat) : bool :=
  match hi with
  | None => true
  | Some m => Nat.ltb n m
  end.

Section Matcher.

Variable fl : re_flags.

(** [n] characters of the repetition have been taken.  A greedy
    repetition first tries one more character and falls back to the
    continuation; a lazy one first tries the continuation. *)
Fixpoint repeat {R : Type} (a : atom) (lo : nat) (hi : option nat)
    (greedy : bool) (n : nat) (p : nat) (pv : option ascii) (s : str)
    (k : cursor -> option R) : option R :=
  let stop (_ : unit) :=
    if Nat.leb lo n then k (Cursor p pv s) else None in
  let more (_ : unit) :=
    match s with
    | c :: t =>
        if under_max n hi && atom_matches fl a c
        then repeat a lo hi greedy (S n) (S p) (Some c) t k
        else None
    | [] => None
    end in
  if greedy then
    match more tt with
    | Some x => Some x
    | None => stop tt
    end
  else
    match stop tt with
    | Some x => Some x
    | None => more tt
    end.

(** [run r cur caps k] matches [r] at [cur] and hands the cursor
    after the match and the captures to [k]; when [k] fails the next
    alternative in priority order is tried.  A lookahead is matched
    on its own, consumes nothing and is not re-entered afterwards. *)
Fixpoint run {R : Type} (r : regex) (cur : cursor) (caps : captures)
    (k : cursor -> captures -> option R) : option R :=
  match r with
  | REmpty => k cur caps
  | RAtom a =>
      match rest cur with
      | c :: t =>
          if atom_matches fl a c
          then k (Cursor (S (pos cur)) (Some c) t) caps
          else None
      | [] => None
      end
  | RRepeat a lo hi greedy =>
      repeat a lo hi greedy 0 (pos cur) (prev cur) (rest cur)
        (fun cur' => k cur' caps)
  | RCat r1 r2 =>
      run r1 cur caps (fun cur' caps' => run r2 cur' caps' k)
  | RAlt r1 r2 =>
      match run r1 cur caps k with
      | Some x => Some x
      | None => run r2 cur caps k
      end
  | RGroup n r1 =>
      run r1 cur caps (fun cur' caps' =>
        k cur' (<[Nat.pred n := Some (pos cur, pos cur')]> caps'))
  | RLookahead r1 =>
      match run r1 cur caps (fun _ caps' => Some caps') with
      | Some caps' => k cur caps'
      | None => None
      end
  | RBol => if at_bol fl cur then k cur caps else None
  | REol => if at_eol fl cur then k cur caps else None
  | RWordBoundary => if at_boundary cur then k cur caps else None
  end.

(** One attempt at the position [cur]: the end of the match and the
    captures.  With [must_advance] an empty match is refused (the
    engine keeps looking for a non-empty one at this position). *)
Definition match_at (r : regex) (must_advance : bool) (cur : cursor)
  : option (nat * captures) :=
  run r cur (replicate (ngroups r) None)
    (fun cur' caps' =>
       if must_advance && Nat.eqb (pos cur') (pos cur) then None
       else Some (pos cur', caps')).

(** [pattern.search]: the first position, from the left, at which an
    attempt succeeds; the start, the end and the captures. *)
Fixpoint search_from (r : regex) (p : nat) (pv : option ascii) (s : str)
  : option (nat * nat * captures) :=
  match match_at r false (Cursor p pv s) with
  | Some (e, caps) => Some (p, e, caps)
  | None =>
      match s with
      | [] => None
      | c :: t => search_from r (S p) (Some c) t
      end
  end.

(** [pattern.sub(repl, text)] for a replacement without group
    references: the matches are found from left to right without
    overlap and each is replaced by [repl]; [skip] counts the
    characters of the current match that are still to be passed over.
    After an empty match the engine must advance: it looks for a
    non-empty match at the same position before it moves on. *)
Fixpoint sub_from (r : regex) (repl : str) (p : nat) (pv : option ascii)
    (s : str) (skip : nat) : str :=
  match s with
  | [] =>
      match skip, match_at r false (Cursor p pv s) with
      | O, Some _ => repl
      | _, _ => []
      end
  | c :: t =>
      match skip with
      | S skip' => sub_from r repl (S p) (Some c) t skip'
      | O =>
          match match_at r false (Cursor p pv s) with
          | None => c :: sub_from r repl (S p) (Some c) t 0
          | Some (e, _) =>
              if Nat.ltb p e
              then repl ++ sub_from r repl (S p) (Some c) t (e - p - 1)
              else
                repl ++
                match match_at r true (Cursor p pv s) with
                | Some (e', _) =>
                    repl ++ sub_from r repl (S p) (Some c) t (e' - p - 1)
                | None => c :: sub_from r repl (S p) (Some c) t 0
                end
          end
      end
  end.

End Matcher.
End Sre.

(** ** The [re] module *)

(** a match object: [group(0)] and the tuple [groups()] *)
Record Match : Type := MkMatch {
  group0 : str;
  groups : list (option str)
}.

Definition slice (text : str) (b e : nat) : str := take (e - b) (drop b text).

(** [re.search(pattern, text, flags)] *)
Definition re_search (pattern : string) (text : str) (fl : re_flags)
  : result (option Match) :=
  match re_compile pattern with
  | None => Raise ReError
  | Some r =>
      Return
        match Sre.search_from fl r 0 None text with
        | None => None
        | Some (b, e, caps) =>
            Some (MkMatch (slice text b e)
                    (map (fun sp => (fun '(gb, ge) => slice text gb ge) <$> sp) caps))
        end
  end.

(** [re.sub(pattern, repl, text)] *)
Definition re_sub (pattern : string) (repl : str) (text : str) : result str :=
  match re_compile pattern with
  | None => Raise ReError
  | Some r => Return (Sre.sub_from no_flags r repl 0 None text 0)
  end.

(** ** [dict] *)

Abbreviation dict := (gmap string str).

(** [d[k]] *)
Definition dict_getitem (d : dict) (k : string) : result str :=
  match d !! k with
  | Some v => Return v
  | None => Raise KeyError
  end.

(** [d.get(k, default)] *)
Definition dict_get (d : dict) (k : string) (default : str) : str :=
  match d !! k with
  | Some v => v
  | None => default
  end.

(** [k in d] *)
Definition dict_contains (d : dict) (k : string) : bool :=
  match d !! k with
  | Some _ => true
  | None => false
  end.

(** truth value of a [str] and of a [dict]: not empty *)
Definition str_truthy (s : str) : bool :=
  match s with
  | [] => false
  | _ :: _ => true
  end.

Definition dict_truthy (d : dict) : bool := negb (bool_decide (d = ∅)).

(** ** The application: configuration *)

(** [PARSING_RULES], in the order of the source; [dict.items()] walks it
    in this order. *)
Definition PARSING_RULES : list (string * list string) := [
  ("Category", [
     "Application of the Code and Standards: Level II";
     "([A-Z][a-zA-Z\s:]+Level\s+[IVX]+)";
     "Review Category[:\s]+(.*?)(?=\n|Question)";
     "Done Practicing\s*([A-Z][a-zA-Z\s]+?)(?=\s*Question|\s*\d+\s+of\s+\d+|\n|$)";
     "\n\s*([A-Z][a-zA-Z\s]+?)\s*\n\s*demonstrate the use";
     "^(.*?)\n"
  ]);
  ("Question Number", [
     "Question\s+(\d+\s+of\s+\d+)";
     "Question[:\s]+(\d+ of \d+)";
     "(\d+\s+of\s+\d+)"
  ]);
  ("Result", [
     "Your result is (\w+)\.";
     "✓.*?(Correct)";
     "\b(Correct|Incorrect)\b";
     "Correct Answer.*?Your Answer.*?([A-Z])\s*✓"
  ]);
  ("Question Text", [
     "Question\s*\n(.*?)(?=\s*A\.\s*$|\s*A\.\s*\n|\s*Solution)";
     "Question\s*\n\s*(.*?)(?=\s*Did.*violate)";
     "Question\s*\n(.*?)(?=\s*A\.|Solution)";
     "(?:^|\n)\s*Question\s*\n(.*?)(?=\nSolution|\nA\.)";
     "Question\s+(.*?)(?=\nA\.|\nSolution)";
     "Question\s+(.*?)(?=\s*A\.\s*lower|\s*Solution)"
  ]);
  ("Confidence Level", [
     "Confidence Level:\s*([^\n\r]*?)(?=\n|$|Continue)";
     "Confidence Level:[^\n]*?\n([^\n\r]*?)(?=\n|$|Continue)"
  ]);
  ("Time Spent", [
     "Total:\s*(\d{2}:\d{2})";
     "This Question:\s*(\d{2}:\d{2})";
     "Time Spent:\s*(\d+ secs?)";
     "Time Spent:\s*([^\n]*?)(?=\n|$)"
  ]);
  ("Difficulty Level", [
     "Difficulty Level:\s*([^\n]*?)(?=\n|$)"
  ])
].

(** ** The application: logic functions *)

Section Logic.

(** [sys.get_int_max_str_digits()] of the interpreter that runs the
    application *)
Variable int_max_str_digits : nat.

Definition int (s : str) : option Z := PyInt.parse int_max_str_digits s.

(** The [Time Spent] branch of [parse_text]: a value that already
    mentions seconds is kept; [MM:SS] is converted; a [ValueError] of
    [int] is caught and the value is kept. *)
Definition convert_time (value : str) : str :=
  if str_contains (py "sec") (str_lower value) then value
  else if str_contains (py ":") value then
    let time_parts := str_split ":" value in
    match time_parts with
    | [part0; part1] =>                      (* len(time_parts) == 2 *)
        match int part0 with
        | None => value
        | Some minutes =>
            match int part1 with
            | None => value
            | Some seconds =>
                if (0 <=? minutes) && (minutes <=? 999)
                   && (0 <=? seconds) && (seconds <=? 59)
                then
                  if minutes =? 0
                  then PyInt.format seconds ++ py " secs"
                  else PyInt.format minutes ++ py " mins "
                       ++ PyInt.format seconds ++ py " secs"
                else value
            end
        end
    | _ => value
    end
  else value.

(** the special handling of the fields *)
Definition normalize (field : string) (value : str) : str :=
  if String.eqb field "Result" then str_capitalize value
  else if String.eqb field "Time Spent" then convert_time value
  else value.

(** the value a match gives: [match.group(1).strip()] when the pattern
    has groups, [match.group(0).strip()] otherwise; a group that did
    not take part is [None], which has no [strip] *)
Definition match_value (m : Match) : result str :=
  match groups m with
  | [] => Return (str_strip (group0 m))
  | Some g :: _ => Return (str_strip g)
  | None :: _ => Raise AttributeError
  end.

Definition flags : re_flags := Flags true true true.

(** The inner loop of [parse_text] over the patterns of a field, with
    its [break]: [Some value] when a pattern matched, [None] when the
    loop ran to its end with [found] still false. *)
Fixpoint first_match (field : string) (patterns : list string)
    (raw_text : str) : result (option str) :=
  match patterns with
  | [] => Return None
  | pattern :: patterns' =>
      m <- re_search pattern raw_text flags ;;;
      match m with
      | Some mt =>
          value <- match_value mt ;;;
          Return (Some (normalize field value))
      | None => first_match field patterns' raw_text
      end
  end.

(** the outer loop over the items of the rule table *)
Fixpoint parse_fields (rules : list (string * list string))
    (raw_text : str) (parsed_data : dict) : result dict :=
  match rules with
  | [] => Return parsed_data
  | (field, patterns) :: rules' =>
      found <- first_match field patterns raw_text ;;;
      match found with
      | Some value =>
          parse_fields rules' raw_text (<[field := value]> parsed_data)
      | None =>
          parse_fields rules' raw_text (<[field := []]> parsed_data)
      end
  end.

Definition parse_text (raw_text : str) : result (option dict) :=
  if negb (str_truthy raw_text) || negb (str_truthy (str_strip raw_text))
  then Return None
  else
    parsed_data <- parse_fields PARSING_RULES raw_text ∅ ;;;
    Return (Some parsed_data).

(** [clean_text_field], local to [save_to_csv] *)
Definition clean_text_field (text : str) : result str :=
  if negb (str_truthy text) then Return []
  else
    text1 <- re_sub "\r?\n" (py " ") text ;;;
    text2 <- re_sub "\s+" (py " ") text1 ;;;
    Return (str_strip text2).

(** The loop of [is_valid_data] over the essential fields: [false]
    when it returns [False] from inside the loop, [true] when it runs
    to its end. *)
Fixpoint essential_present (fields : list string) (data : dict)
  : result bool :=
  match fields with
  | [] => Return true
  | field :: fields' =>
      if negb (dict_contains data field) then Return false
      else
        v <- dict_getitem data field ;;;
        if negb (str_truthy (str_strip v)) then Return false
        else essential_present fields' data
  end.

Definition is_valid_data (data : option dict) : result bool :=
  match data with
  | None => Return false
  | Some data =>
      if negb (dict_truthy data) then Return false
      else
        let essential_fields := ["Category"; "Result"] in
        ok <- essential_present essential_fields data ;;;
        if negb ok then Return false
        else if str_truthy (str_strip (dict_get data "Question Number" []))
        then Return true
        else if str_truthy (str_strip (dict_get data "Question Text" []))
        then Return true
        else Return true
  end.

End Logic.

(** ** [str.replace] *)

(** [s.replace(old, new)] for a non-empty [old]: the occurrences of
    [old] are found from left to right without overlap; [skip] counts the
    characters of the current occurrence that are still to be passed
    over. *)
Fixpoint replace_from (old new : str) (s : str) (skip : nat) : str :=
  match s with
  | [] => []
  | c :: t =>
      match skip with
      | S skip' => replace_from old new t skip'
      | O =>
          if startswith old s
          then new ++ replace_from old new t (length old - 1)
          else c :: replace_from old new t 0
      end
  end.

(** [s.replace(old, new)]; with an empty [old], [new] goes before every
    character and at the end (the application never passes an empty
    [old]; on bytes this is CPython's result for ASCII text) *)
Definition str_replace (old new : str) (s : str) : str :=
  match old with
  | [] => new ++ concat (map (fun c => c :: new) s)
  | _ :: _ => replace_from old new s 0
  end.

(** ** The application: error types *)

Definition ERROR_TYPES : list str := [
  py "❌ Misread the question";
  py "🔄 Wrong formula/concept";
  py "⚠️ Calculation error";
  py "❓ Uncertain"
].

Definition clean_error_type_for_csv (error_type : str) : str :=
  if negb (str_truthy error_type) then error_type
  else
    let cleaned :=
      str_replace (py "❓ ") (py "")
        (str_replace (py "⚠️ ") (py "")
           (str_replace (py "🔄 ") (py "")
              (str_replace (py "❌ ") (py "") error_type))) in
    cleaned.

(** ** The application: the row that is saved *)

Definition REQUIRED_COLUMNS : list string := [
  "Category"; "Question Number"; "Result"; "Question Text"; "Error Type";
  "Confidence Level"; "Time Spent"; "Difficulty Level"; "Notes"; "Timestamp"
].

(** The writes [to_csv] made to the log file since it was created: a row
    appended by [save_to_csv], with or without the header line, or the
    whole table written over the file.  The rows of a table that pandas
    read back are kept abstract. *)
Inductive csv_write (Row : Type) : Type :=
| Append (row : list (string * str)) (header : bool)
| Overwrite (table : list Row).
Arguments Append {Row} row header.
Arguments Overwrite {Row} table.

(** the log file: [None] when [os.path.exists(CSV_FILENAME)] is false *)
Abbreviation csv_file Row := (option (list (csv_write Row))).

(** [save_to_csv(data)]: [now] is
    [datetime.now().strftime("%Y-%m-%d %H:%M:%S")].  The result is the
    dict [data] after the call (the call writes the timestamp into it),
    the dict [ordered_data] in its order, and the file after the append. *)
Definition save_to_csv {Row : Type} (now : str) (data : dict)
    (file : csv_file Row)
  : result (dict * list (string * str) * csv_file Row) :=
  let data := <["Timestamp" := now]> data in
  notes <- clean_text_field (dict_get data "Notes" []) ;;;
  question_text <- clean_text_field (dict_get data "Question Text" []) ;;;
  category <- clean_text_field (dict_get data "Category" []) ;;;
  question_number <- clean_text_field (dict_get data "Question Number" []) ;;;
  result_ <- clean_text_field (dict_get data "Result" []) ;;;
  error_type <- clean_text_field (dict_get data "Error Type" []) ;;;
  confidence <- clean_text_field (dict_get data "Confidence Level" []) ;;;
  time_spent <- clean_text_field (dict_get data "Time Spent" []) ;;;
  difficulty <- clean_text_field (dict_get data "Difficulty Level" []) ;;;
  let ordered_data := [
    ("Category", category);
    ("Question Number", question_number);
    ("Result", result_);
    ("Question Text", question_text);
    ("Error Type", error_type);
    ("Confidence Level", confidence);
    ("Time Spent", time_spent);
    ("Difficulty Level", difficulty);
    ("Notes", notes);
    ("Timestamp", dict_get data "Timestamp" [])
  ] in
  let file_exists := match file with Some _ => true | None => false end in
  let writes := match file with Some ws => ws | None => [] end in
  Return (data, ordered_data,
          Some (writes ++ [Append ordered_data (negb file_exists)])).

(** ** The application: session state *)

Record session : Type := Session {
  parsed_data : option dict;
  saved_successfully : bool;
  text_input_key : Z;
  notes_input_key : Z;
  files_processed : bool;
  selected_for_deletion : list Z;
  show_delete_mode : bool
}.

(** truth value of [st.session_state.get("parsed_data")] *)
Definition parsed_data_truthy (s : session) : bool :=
  match parsed_data s with
  | Some d => dict_truthy d
  | None => false
  end.

(** [auto_save_and_clear(error_type, notes)]: the session and the file
    after the call, and whether [st.rerun()] was reached. *)
Definition auto_save_and_clear {Row : Type} (now : str) (error_type : str)
    (notes : str) (s : session) (file : csv_file Row)
  : result (session * csv_file Row * bool) :=
  match parsed_data s with
  | Some pd =>
      if dict_truthy pd && str_truthy error_type then
        let parsed_data_copy := pd in
        let parsed_data_copy :=
          <["Error Type" := clean_error_type_for_csv error_type]>
            parsed_data_copy in
        let parsed_data_copy := <["Notes" := notes]> parsed_data_copy in
        saved <- save_to_csv now parsed_data_copy file ;;;
        let '(_, _, file') := saved in
        Return
          (Session None true
             ((text_input_key s + 1) mod 1000)
             ((notes_input_key s + 1) mod 1000)
             (files_processed s) (selected_for_deletion s)
             (show_delete_mode s),
           file', true)
      else Return (s, file, false)
  | None => Return (s, file, false)
  end.

(** ** pandas: frames with the default index

    A frame that [read_csv] returned has the row labels 0, 1, 2, ...;
    it is the list of its rows. *)

(** the rows of [df], numbered from [i], whose label is not in [labels] *)
Fixpoint drop_rows {Row : Type} (df : list Row) (i : Z) (labels : list Z)
  : list Row :=
  match df with
  | [] => []
  | r :: rest =>
      if bool_decide (i ∈ labels) then drop_rows rest (i + 1) labels
      else r :: drop_rows rest (i + 1) labels
  end.

(** [df.drop(labels).reset_index(drop=True)]; [None] stands for the
    [KeyError] that [drop] raises when a label is not a row label *)
Definition df_drop {Row : Type} (df : list Row) (labels : list Z)
  : option (list Row) :=
  if forallb (fun l => (0 <=? l) && (l <? Z.of_nat (length df))) labels
  then Some (drop_rows df 0 labels)
  else None.

(** [df.drop_duplicates(subset=[column], keep='last')]: a row is kept
    when no later row has the same value in the column *)
Fixpoint drop_duplicates_last {Row Cell : Type} `{EqDecision Cell}
    (column : Row -> Cell) (df : list Row) : list Row :=
  match df with
  | [] => []
  | r :: rest =>
      if bool_decide (column r ∈ map column rest)
      then drop_duplicates_last column rest
      else r :: drop_duplicates_last column rest
  end.

(** [df.tail(10).iloc[::-1].reset_index(drop=False)['index'].tolist()]
    for a frame of [n] rows: the labels of the last ten rows, the latest
    first *)
Definition display_indices (n : nat) : list Z :=
  rev (map Z.of_nat (seq (n - 10) (Nat.min n 10))).

(** ** The application: the log file *)

Section Log.

Context {Row Cell Upload : Type} `{EqDecision Cell}.

(** the [Timestamp] column of a row *)
Variable timestamp : Row -> Cell.

(** [read_csv_safe(CSV_FILENAME)] as a function of what was written to
    the file; [None] when the file cannot be read *)
Variable read_csv_safe : list (csv_write Row) -> option (list Row).

(** [pd.read_csv(uploaded_file)] with the missing columns added and the
    columns in the order of [REQUIRED_COLUMNS]; [None] when it raises *)
Variable read_upload : Upload -> option (list Row).

(** [delete_selected_mistakes(selected_indices)]: the returned flag and
    the file after the call.  Every exception is caught and gives
    [False]. *)
Definition delete_selected_mistakes (selected_indices : list Z)
    (file : csv_file Row) : bool * csv_file Row :=
  match selected_indices, file with
  | [], _ => (false, file)
  | _ :: _, None => (false, file)
  | _ :: _, Some ws =>
      match read_csv_safe ws with
      | None => (false, file)
      | Some [] => (false, file)
      | Some df =>
          match df_drop df selected_indices with
          | Some df_filtered => (true, Some [Overwrite df_filtered])
          | None => (false, file)
          end
      end
  end.

(** [load_old_log(uploaded_file)]: the returned flag and the file after
    the call *)
Definition load_old_log (uploaded_file : option Upload)
    (file : csv_file Row) : bool * csv_file Row :=
  match uploaded_file with
  | Some u =>
      match read_upload u with
      | Some old_df =>
          let combined_df :=
            match file with
            | Some ws =>
                match read_csv_safe ws with
                | Some current_df =>
                    drop_duplicates_last timestamp (current_df ++ old_df)
                | None => old_df
                end
            | None => old_df
            end in
          (true, Some [Overwrite combined_df])
      | None => (false, file)
      end
  | None => (false, file)
  end.

(** the loop of [process_uploaded_log] over the uploaded files *)
Fixpoint load_all (uploaded_files : list Upload) (success_count : nat)
    (file : csv_file Row) : nat * csv_file Row :=
  match uploaded_files with
  | [] => (success_count, file)
  | uploaded_file :: rest =>
      let '(ok, file') := load_old_log (Some uploaded_file) file in
      load_all rest (if ok then S success_count else success_count) file'
  end.

(** [process_uploaded_log()]: [uploaded_files] is the value of the
    uploader widget; the session and the file after the call *)
Definition process_uploaded_log (uploaded_files : list Upload)
    (s : session) (file : csv_file Row) : session * csv_file Row :=
  if parsed_data_truthy s then (s, file)
  else
    match uploaded_files with
    | _ :: _ =>
        if negb (files_processed s) then
          let '(_, file') := load_all uploaded_files 0 file in
          (Session (parsed_data s) (saved_successfully s) (text_input_key s)
             (notes_input_key s) true (selected_for_deletion s)
             (show_delete_mode s),
           file')
        else (s, file)
    | [] =>
        (Session (parsed_data s) (saved_successfully s) (text_input_key s)
           (notes_input_key s) false (selected_for_deletion s)
           (show_delete_mode s),
         file)
    end.

End Log.

(** ** The application: choosing rows to delete *)

(** [l.remove(x)] for an [x] that is in [l]: the first occurrence goes *)
Fixpoint list_remove (x : Z) (l : list Z) : list Z :=
  match l with
  | [] => []
  | y :: t => if bool_decide (y = x) then t else y :: list_remove x t
  end.

(** the update of [selected_for_deletion] for one check box *)
Definition update_selected (original_idx : Z) (is_selected : bool)
    (selected : list Z) : list Z :=
  if is_selected && negb (bool_decide (original_idx ∈ selected))
  then selected ++ [original_idx]
  else if negb is_selected && bool_decide (original_idx ∈ selected)
  then list_remove original_idx selected
  else selected.

(** The loop over the displayed rows in delete mode: [checked] is what
    the check box of a row returns. *)
Fixpoint select_rows (indices : list Z) (checked : Z -> bool)
    (selected : list Z) : list Z :=
  match indices with
  | [] => selected
  | original_idx :: rest =>
      select_rows rest checked
        (update_selected original_idx (checked original_idx) selected)
  end.

(** ** The application: the text box

    The part of the script between the text area and the error type
    buttons: the pasted text is parsed when no parsed record is pending,
    and the page then shows the buttons, a warning (with the record, if
    there is one) or nothing. *)

Inductive view : Type :=
| ErrorTypeButtons
| Warning (shown : option dict)
| NoFeedback.

Definition with_parsed_data (s : session) (r : option dict) : session :=
  Session r (saved_successfully s) (text_input_key s) (notes_input_key s)
    (files_processed s) (selected_for_deletion s) (show_delete_mode s).

Definition on_text_input (lim : nat) (raw_text_input : str) (s : session)
  : result (session * view) :=
  s1 <- (if str_truthy raw_text_input && negb (parsed_data_truthy s)
         then
           r <- parse_text lim raw_text_input ;;;
           Return (with_parsed_data s r)
         else Return s) ;;;
  valid <- (if parsed_data_truthy s1 then is_valid_data (parsed_data s1)
            else Return false) ;;;
  if valid then Return (s1, ErrorTypeButtons)
  else if str_truthy raw_text_input then
    Return (s1, Warning (if parsed_data_truthy s1 then parsed_data s1 else None))
  else Return (s1, NoFeedback).

(** * Vocabulary of the properties *)

(** empty, or whitespace only *)
Definition blank (s : str) : bool := forallb Char.isspace s.

(** [r] sets group 1 on every path through it *)
Fixpoint sets_group1 (r : regex) : bool :=
  match r with
  | RGroup n r1 => Nat.eqb n 1 || sets_group1 r1
  | RCat r1 r2 => sets_group1 r1 || sets_group1 r2
  | RAlt r1 r2 => sets_group1 r1 && sets_group1 r2
  | RLookahead r1 => sets_group1 r1
  | _ => false
  end.

Definition has_group1 (caps : captures) : Prop :=
  exists sp t, caps = Some sp :: t.

(** the pattern compiles and, when it has groups, sets group 1 on every
    path *)
Definition well_grouped (pattern : string) : bool :=
  match re_compile pattern with
  | Some r => Nat.eqb (ngroups r) 0 || sets_group1 r
  | None => false
  end.

(** The value of a match: the trimmed group 1 when the pattern has a
    group, the trimmed whole match otherwise. *)
Definition raw_value (r : regex) (m : Match) (raw : str) : Prop :=
  (ngroups r = 0%nat /\ raw = str_strip (group0 m)) \/
  ((0 < ngroups r)%nat /\
   exists g, groups m !! 0%nat = Some (Some g) /\ raw = str_strip g).

(** the pattern does not match the text *)
Definition no_match (raw_text : str) (pattern : string) : Prop :=
  re_search pattern raw_text flags = Return None.

(** what the outer loop stores for a field *)
Definition stored (found : option str) : str :=
  match found with
  | Some value => value
  | None => []
  end.

(** an essential field is present and not blank *)
Definition essential_ok (entry : option str) : bool :=
  match entry with
  | Some v => str_truthy (str_strip v)
  | None => false
  end.

Definition rejected_record : dict :=
  <["Category" := py ""]>
    (<["Result" := py "Correct"]>
       (<["Question Text" :=
            py "Did the analyst violate the Standards by trading ahead of the report?"]>
          ∅)).

Definition record_a : dict :=
  <["Category" := py "Ethics: Level II"]>
    (<["Result" := py "Correct"]> (<["Question Number" := py "1 of 1"]> ∅)).

Definition record_b : dict :=
  <["Category" := py "Ethics: Level II"]>
    (<["Result" := py "Correct"]> (<["Question Text" := py " "]> ∅)).

Definition record_without_category : dict :=
  <["Result" := py "Correct"]> (<["Question Number" := py "1 of 1"]> ∅).

Definition incorrect_match : Match :=
  MkMatch (py "INCORRECT") [Some (py "INCORRECT")].

Definition correct_match : Match :=
  MkMatch (py "Your result is correct.") [Some (py "correct")].

(** the value contains [sec], in any case *)
Definition mentions_seconds (raw : str) : Prop :=
  exists pre mid post, raw = pre ++ mid ++ post /\ str_lower mid = py "sec".

(** the value is [MM:SS]: two integer parts around its only colon,
    minutes in [0,999] and seconds in [0,59] *)
Definition mm_ss (lim : nat) (raw : str) (minutes seconds : Z) : Prop :=
  exists p0 p1,
    raw = p0 ++ (":"%char :: p1) /\ (":"%char ∉ p0) /\ (":"%char ∉ p1) /\
    int lim p0 = Some minutes /\ int lim p1 = Some seconds /\
    0 <= minutes <= 999 /\ 0 <= seconds <= 59.

Definition render_time (minutes seconds : Z) : str :=
  if minutes =? 0 then PyInt.format seconds ++ py " secs"
  else PyInt.format minutes ++ py " mins " ++ PyInt.format seconds ++ py " secs".

Definition total_match : Match :=
  MkMatch (py "Total: 00:03") [Some (py "00:03")].

(** each [\n] and each [\r\n] replaced by a space, written directly *)
Fixpoint sub_newlines (s : str) : str :=
  match s with
  | [] => []
  | c :: t =>
      if Char.eqb c ReParse.LF then " "%char :: sub_newlines t
      else
        match t with
        | d :: t' =>
            if Char.eqb c ReParse.CR && Char.eqb d ReParse.LF
            then " "%char :: sub_newlines t'
            else c :: sub_newlines t
        | [] => [c]
        end
  end.

(** every run of whitespace replaced by one space, written directly;
    [in_run] says that the previous character was whitespace *)
Fixpoint collapse (in_run : bool) (s : str) : str :=
  match s with
  | [] => []
  | c :: t =>
      if Char.isspace c then
        if in_run then collapse true t else " "%char :: collapse true t
      else c :: collapse false t
  end.

(** The sanitizer in the words of the specification: each line
    terminator, bare or paired, becomes a space; then each run of
    whitespace becomes one space; then leading and trailing whitespace is
    trimmed. *)
Definition spec_sanitize (x : str) : str :=
  str_strip (collapse false (sub_newlines x)).

(** the length of the whitespace at the start of [s] *)
Fixpoint span (s : str) : nat :=
  match s with
  | c :: t => if Char.isspace c then S (span t) else 0
  | [] => 0
  end.

Definition newline_re : regex :=
  RCat (RRepeat (ALit ReParse.CR) 0 (Some 1%nat) true)
    (RCat (RAtom (ALit ReParse.LF)) REmpty).

Definition spaces_re : regex :=
  RCat (RRepeat (ASet false [SSpace]) 1 None true) REmpty.

(** a sanitized text: its only whitespace is single spaces;
    [after_space] says that the previous character was a space *)
Fixpoint tidy (after_space : bool) (s : str) : bool :=
  match s with
  | [] => true
  | c :: t =>
      if Char.isspace c
      then Char.eqb c " " && negb after_space && tidy true t
      else tidy false t
  end.

Definition review_screen : str := py "Done Practicing
Application of the Code and Standards: Level II
Question 1 of 1
Question
Did Smith violate the Standards?
A. Yes
B. No
Solution
Your result is Correct.
Total: 00:03
Confidence Level: High
Difficulty Level: Medium
".

(** the record [parse_text] builds for the text [INCORRECT] *)
Definition incorrect_record : dict :=
  <["Difficulty Level" := []]>
    (<["Time Spent" := []]>
       (<["Confidence Level" := []]>
          (<["Question Text" := []]>
             (<["Result" := py "Incorrect"]>
                (<["Question Number" := []]>
                   (<["Category" := []]> ∅)))))).

(** no whitespace at either end: [s.strip() == s] *)
Definition trimmed (s : str) : Prop := str_strip s = s.

(** the characters of [s] that are not whitespace, in their order *)
Definition visible (s : str) : str :=
  filter (fun c => Char.isspace c = false) s.

(** the only whitespace of [s] is the space character *)
Definition only_spaces (s : str) : Prop :=
  Forall (fun c => Char.isspace c = true -> c = " "%char) s.

(** no two spaces of [s] are adjacent *)
Definition no_double_space (s : str) : Prop :=
  forall pre post, s <> pre ++ " "%char :: " "%char :: post.

(** the icon prefixes that [clean_error_type_for_csv] removes *)
Definition icon_prefixes : list str :=
  [py "❌ "; py "🔄 "; py "⚠️ "; py "❓ "].

(** every character is in the ASCII range *)
Definition is_ascii (s : str) : Prop :=
  Forall (fun c => (Char.code c < 128)%N) s.

(** the writes already made to the log file *)
Definition writes_of {Row : Type} (file : csv_file Row) : list (csv_write Row) :=
  match file with
  | Some ws => ws
  | None => []
  end.

(** the log file does not exist yet *)
Definition is_new {Row : Type} (file : csv_file Row) : bool :=
  match file with
  | Some _ => false
  | None => true
  end.

(** a session with a parsed record waiting for its error type *)
Definition pending_session : session :=
  Session (Some incorrect_record) false 999 7 false [] false.

(** the label is a row label of a frame of [n] rows *)
Definition row_label (n : nat) (l : Z) : Prop := 0 <= l < Z.of_nat n.

(** the rows of [df] with their labels *)
Definition labelled {Row : Type} (df : list Row) : list (nat * Row) :=
  zip (seq 0 (length df)) df.

(** a reader that returns the table last written over the file *)
Definition sample_reader (ws : list (csv_write nat)) : option (list nat) :=
  match ws with
  | [Overwrite table] => Some table
  | _ => None
  end.

(** an upload that is its own table *)
Definition sample_upload (u : list nat) : option (list nat) := Some u.

(** the session of a first run: nothing parsed, nothing selected *)
Definition fresh_session : session :=
  Session None false 0 0 false [] false.

(** * Properties *)

(** ** Blank text and [strip] *)

Lemma lstrip_nil_iff (s : str) : lstrip s = [] <-> blank s = true.
Proof.
  induction s as [|c t IH]; simpl; [tauto|].
  destruct (Char.isspace c) eqn:Hc; simpl; [exact IH|].
  split; discriminate.
Qed.

Lemma lstrip_head (s : str) (c : ascii) (t : str) :
  lstrip s = c :: t -> Char.isspace c = false.
Proof.
  induction s as [|a s IH]; simpl; [discriminate|].
  destruct (Char.isspace a) eqn:Ha; [exact IH|].
  intros [= <- _]. exact Ha.
Qed.

Lemma rstrip_nil_iff (s : str) : rstrip s = [] <-> blank s = true.
Proof.
  induction s as [|c t IH]; simpl; [tauto|].
  destruct (rstrip t) as [|a t'] eqn:Ht.
  - destruct (Char.isspace c); simpl.
    + split; [intros _; apply IH; reflexivity | reflexivity].
    + split; discriminate.
  - split; [discriminate|].
    intros [_ Hb]%andb_prop. apply IH in Hb. discriminate.
Qed.

Lemma rstrip_cons_nonspace (c : ascii) (t : str) :
  Char.isspace c = false -> rstrip (c :: t) = c :: rstrip t.
Proof. intros Hc. simpl. rewrite Hc. destruct (rstrip t); reflexivity. Qed.

Lemma str_strip_nil_iff (s : str) : str_strip s = [] <-> blank s = true.
Proof.
  unfold str_strip. rewrite <- lstrip_nil_iff.
  destruct (lstrip s) as [|c t] eqn:Hs; [tauto|].
  rewrite (rstrip_cons_nonspace _ _ (lstrip_head _ _ _ Hs)).
  split; discriminate.
Qed.

Lemma blank_nil_or_strip (s : str) :
  negb (str_truthy s) || negb (str_truthy (str_strip s)) = blank s.
Proof.
  destruct s as [|c t]; [reflexivity|]. simpl negb at 1. simpl orb.
  destruct (blank (c :: t)) eqn:Hb.
  - apply str_strip_nil_iff in Hb. rewrite Hb. reflexivity.
  - destruct (str_strip (c :: t)) eqn:Hs; [|reflexivity].
    apply str_strip_nil_iff in Hs. congruence.
Qed.

(** ** The matcher: captures *)

Lemma has_group1_insert (caps : captures) (i : nat) (sp : nat * nat) :
  has_group1 caps -> has_group1 (<[i := Some sp]> caps).
Proof.
  intros (sp0 & t & ->). destruct i; simpl; unfold has_group1; eauto.
Qed.

Lemma has_group1_insert_0 (caps : captures) (sp : nat * nat) :
  (0 < length caps)%nat -> has_group1 (<[0%nat := Some sp]> caps).
Proof.
  destruct caps as [|c t]; simpl; [lia|]. unfold has_group1; eauto.
Qed.

Lemma repeat_inv {R : Type} fl a lo hi greedy n p pv s
    (k : cursor -> option R) (x : R) :
  Sre.repeat fl a lo hi greedy n p pv s k = Some x ->
  exists cur', k cur' = Some x.
Proof.
  revert n p pv. induction s as [|c t IH]; intros n p pv; simpl.
  - destruct greedy, (Nat.leb lo n); try discriminate; eauto.
    destruct (k (Cursor p pv [])) eqn:Hk; [|discriminate].
    intros [= ->]. eauto.
  - destruct greedy.
    + destruct (Sre.under_max n hi && Sre.atom_matches fl a c).
      * destruct (Sre.repeat fl a lo hi true (S n) (S p) (Some c) t k) eqn:Hr.
        -- intros [= ->]. eapply IH, Hr.
        -- destruct (Nat.leb lo n); [eauto | discriminate].
      * destruct (Nat.leb lo n); [eauto | discriminate].
    + destruct (Nat.leb lo n).
      * destruct (k (Cursor p pv (c :: t))) eqn:Hk.
        -- intros [= ->]. eauto.
        -- destruct (Sre.under_max n hi && Sre.atom_matches fl a c);
             [apply IH | discriminate].
      * destruct (Sre.under_max n hi && Sre.atom_matches fl a c);
          [apply IH | discriminate].
Qed.

(** Every success of [run] is a success of its continuation, on captures
    of the same length in which group 1 is set if it was set before or
    if the pattern sets it. *)
Lemma run_inv fl (r : regex) :
  forall {R : Type} (cur : cursor) (caps : captures)
         (k : cursor -> captures -> option R) (x : R) (b : bool),
    (b = true -> has_group1 caps) ->
    Sre.run fl r cur caps k = Some x ->
    exists cur' caps',
      k cur' caps' = Some x /\ length caps' = length caps /\
      (b || sets_group1 r = true -> (0 < length caps)%nat -> has_group1 caps').
Proof.
  induction r as [|a|a lo hi greedy|r1 IH1 r2 IH2|r1 IH1 r2 IH2|n r1 IH1|r1 IH1| | |];
    intros R cur caps k x b Hb; simpl.
  - intros H. exists cur, caps. rewrite orb_false_r. auto.
  - destruct (rest cur) as [|c t]; [discriminate|].
    destruct (Sre.atom_matches fl a c); [|discriminate].
    intros H. eexists _, caps. rewrite orb_false_r. eauto.
  - intros (cur' & H)%repeat_inv. exists cur', caps.
    rewrite orb_false_r. auto.
  - intros H.
    destruct (IH1 _ _ _ _ _ b Hb H) as (cur1 & caps1 & H1 & Hl1 & Hg1).
    destruct (IH2 _ _ _ _ _
                ((b || sets_group1 r1) && Nat.ltb 0 (length caps)) ltac:(
                  intros [Hs Hl]%andb_prop; apply Nat.ltb_lt in Hl; auto) H1)
      as (cur2 & caps2 & H2 & Hl2 & Hg2).
    exists cur2, caps2. split; [exact H2|]. split; [lia|].
    intros Hs Hlen. apply Hg2; [|lia].
    apply Nat.ltb_lt in Hlen. rewrite Hlen, andb_true_r, <- orb_assoc.
    exact Hs.
  - destruct (Sre.run fl r1 cur caps k) eqn:Hr1.
    + intros [= ->].
      destruct (IH1 _ _ _ _ _ b Hb Hr1) as (cur1 & caps1 & H1 & Hl1 & Hg1).
      exists cur1, caps1. split; [exact H1|]. split; [exact Hl1|].
      intros Hs. apply Hg1.
      destruct b; [reflexivity|]. simpl in *.
      apply andb_prop in Hs. tauto.
    + intros H.
      destruct (IH2 _ _ _ _ _ b Hb H) as (cur2 & caps2 & H2 & Hl2 & Hg2).
      exists cur2, caps2. split; [exact H2|]. split; [exact Hl2|].
      intros Hs. apply Hg2.
      destruct b; [reflexivity|]. simpl in *.
      apply andb_prop in Hs. tauto.
  - intros H.
    destruct (IH1 _ _ _ _ _ b Hb H) as (cur1 & caps1 & H1 & Hl1 & Hg1).
    eexists _, _. split; [exact H1|]. split; [rewrite length_insert; exact Hl1|].
    intros Hs Hlen. destruct (Nat.eqb n 1) eqn:Hn.
    + apply Nat.eqb_eq in Hn. subst n. simpl.
      apply has_group1_insert_0. lia.
    + apply has_group1_insert, Hg1; [|exact Hlen].
      simpl in Hs. exact Hs.
  - destruct (Sre.run fl r1 cur caps (fun _ caps' => Some caps')) as [caps1|] eqn:Hr1;
      [|discriminate].
    intros H.
    destruct (IH1 _ _ _ _ _ b Hb Hr1) as (cur1 & caps1' & [= ->] & Hl1 & Hg1).
    exists cur, caps1. auto.
  - destruct (Sre.at_bol fl cur); [|discriminate].
    intros H. exists cur, caps. rewrite orb_false_r. auto.
  - destruct (Sre.at_eol fl cur); [|discriminate].
    intros H. exists cur, caps. rewrite orb_false_r. auto.
  - destruct (Sre.at_boundary cur); [|discriminate].
    intros H. exists cur, caps. rewrite orb_false_r. auto.
Qed.

Lemma match_at_captures fl (r : regex) (ma : bool) (cur : cursor)
    (e : nat) (caps : captures) :
  Sre.match_at fl r ma cur = Some (e, caps) ->
  length caps = ngroups r /\
  ((0 < ngroups r)%nat -> sets_group1 r = true -> has_group1 caps).
Proof.
  unfold Sre.match_at. intros H.
  apply (run_inv fl r cur _ _ _ false) in H; [|discriminate].
  destruct H as (cur' & caps' & H & Hl & Hs).
  destruct (_ && _); [discriminate|]. injection H as <- <-.
  rewrite length_replicate in Hl, Hs. split; [exact Hl|].
  intros Hg Hr. apply Hs; [exact Hr | exact Hg].
Qed.

Lemma search_from_captures fl (r : regex) (s : str) :
  forall (p : nat) (pv : option ascii) (b e : nat) (caps : captures),
    Sre.search_from fl r p pv s = Some (b, e, caps) ->
    length caps = ngroups r /\
    ((0 < ngroups r)%nat -> sets_group1 r = true -> has_group1 caps).
Proof.
  induction s as [|c t IH]; intros p pv b e caps; simpl.
  - destruct (Sre.match_at fl r false (Cursor p pv [])) as [[e' caps']|] eqn:Hm;
      [|discriminate].
    intros [= <- <- <-]. eapply match_at_captures, Hm.
  - destruct (Sre.match_at fl r false (Cursor p pv (c :: t))) as [[e' caps']|] eqn:Hm.
    + intros [= <- <- <-]. eapply match_at_captures, Hm.
    + apply IH.
Qed.

(** ** [re.search] on the patterns of the rule table *)

Lemma PARSING_RULES_well_grouped :
  Forall (fun fp => Forall (fun p => well_grouped p = true) (snd fp))
    PARSING_RULES.
Proof.
  apply Forall_forall. intros fp Hfp. apply Forall_forall. intros p Hp.
  assert (H : forallb (fun fp => forallb well_grouped (snd fp)) PARSING_RULES
              = true) by (vm_compute; reflexivity).
  rewrite forallb_forall in H. apply list_elem_of_In in Hfp, Hp.
  specialize (H fp Hfp). rewrite forallb_forall in H. exact (H p Hp).
Qed.

Lemma PARSING_RULES_keys_NoDup : NoDup (map fst PARSING_RULES).
Proof. apply (bool_decide_unpack _). vm_compute. exact I. Qed.

Lemma re_search_well_grouped (pattern : string) (text : str) (fl : re_flags) :
  well_grouped pattern = true ->
  exists r om,
    re_compile pattern = Some r /\
    re_search pattern text fl = Return om /\
    forall m, om = Some m ->
      length (groups m) = ngroups r /\
      exists raw, match_value m = Return raw /\ raw_value r m raw.
Proof.
  unfold well_grouped, re_search.
  destruct (re_compile pattern) as [r|]; [|discriminate].
  intros Hw. exists r. eexists. split; [reflexivity|]. split; [reflexivity|].
  intros m.
  destruct (Sre.search_from fl r 0 None text) as [[[b e] caps]|] eqn:Hs;
    [|discriminate].
  intros [= <-]. simpl.
  destruct (search_from_captures _ _ _ _ _ _ _ _ Hs) as [Hl Hg].
  rewrite length_map. split; [exact Hl|].
  unfold match_value, raw_value. simpl.
  destruct (ngroups r) as [|n] eqn:Hn.
  - destruct caps; [|discriminate]. simpl. eexists. split; [reflexivity|].
    left. auto.
  - simpl in Hw. destruct (Hg ltac:(lia) Hw) as ([gb ge] & t & ->). simpl.
    eexists. split; [reflexivity|]. right. split; [lia|]. eauto.
Qed.

(** ** The loops of [parse_text] *)

Section Loops.

Variable lim : nat.
Variable raw_text : str.

Lemma first_match_skip (field : string) (before after : list string) :
  Forall (no_match raw_text) before ->
  first_match lim field (before ++ after) raw_text
  = first_match lim field after raw_text.
Proof.
  induction 1 as [|p before Hp _ IH]; [reflexivity|].
  simpl. rewrite Hp. simpl. exact IH.
Qed.

Lemma first_match_none (field : string) (patterns : list string) :
  Forall (no_match raw_text) patterns ->
  first_match lim field patterns raw_text = Return None.
Proof.
  intros H. rewrite <- (app_nil_r patterns).
  rewrite first_match_skip by exact H. reflexivity.
Qed.

Lemma first_match_hit (field pattern : string) (after : list string)
    (m : Match) (raw : str) :
  re_search pattern raw_text flags = Return (Some m) ->
  match_value m = Return raw ->
  first_match lim field (pattern :: after) raw_text
  = Return (Some (normalize lim field raw)).
Proof. intros Hs Hv. simpl. rewrite Hs. simpl. rewrite Hv. reflexivity. Qed.

Lemma first_match_total (field : string) (patterns : list string) :
  Forall (fun p => well_grouped p = true) patterns ->
  exists found, first_match lim field patterns raw_text = Return found.
Proof.
  induction 1 as [|p patterns Hp _ IH]; simpl; [eauto|].
  destruct (re_search_well_grouped p raw_text flags Hp)
    as (r & om & _ & -> & Hm).
  simpl. destruct om as [m|]; [|exact IH].
  destruct (Hm m eq_refl) as (_ & raw & -> & _). simpl. eauto.
Qed.

Lemma parse_fields_total (rules : list (string * list string)) :
  Forall (fun fp => Forall (fun p => well_grouped p = true) (snd fp)) rules ->
  forall parsed_data,
  exists d, parse_fields lim rules raw_text parsed_data = Return d.
Proof.
  induction 1 as [|[field patterns] rules Hp _ IH]; intros d0; simpl; [eauto|].
  destruct (first_match_total field patterns Hp) as (found & ->). simpl.
  destruct found; apply IH.
Qed.

Lemma parse_fields_other (rules : list (string * list string)) :
  forall (parsed_data d : dict) (field : string),
    parse_fields lim rules raw_text parsed_data = Return d ->
    field ∉ map fst rules ->
    d !! field = parsed_data !! field.
Proof.
  induction rules as [|[f ps] rules IH]; intros d0 d field; simpl.
  - intros [= ->] _. reflexivity.
  - destruct (first_match lim f ps raw_text) as [found|]; [|discriminate].
    simpl. intros H Hn.
    apply not_elem_of_cons in Hn as [Hne Hn].
    destruct found; rewrite (IH _ _ _ H Hn); apply lookup_insert_ne; congruence.
Qed.

Lemma parse_fields_lookup (rules : list (string * list string)) :
  forall (parsed_data d : dict) (field : string) (patterns : list string),
    NoDup (map fst rules) ->
    parse_fields lim rules raw_text parsed_data = Return d ->
    (field, patterns) ∈ rules ->
    exists found,
      first_match lim field patterns raw_text = Return found /\
      d !! field = Some (stored found).
Proof.
  induction rules as [|[f ps] rules IH]; intros d0 d field patterns; simpl.
  - intros _ _ H. inversion H.
  - intros [Hnotin Hnd]%NoDup_cons.
    destruct (first_match lim f ps raw_text) as [found|] eqn:Hf; [|discriminate].
    simpl. intros H [[= -> ->]|Hin]%elem_of_cons.
    + exists found. split; [exact Hf|].
      destruct found; rewrite (parse_fields_other _ _ _ _ H Hnotin);
        apply lookup_insert_eq.
    + destruct found; eapply IH; eauto.
Qed.

End Loops.

(** ** [parse_text] *)

Lemma parse_text_blank (lim : nat) (raw_text : str) :
  blank raw_text = true -> parse_text lim raw_text = Return None.
Proof.
  intros Hb. unfold parse_text. rewrite blank_nil_or_strip, Hb. reflexivity.
Qed.

Lemma parse_text_record (lim : nat) (raw_text : str) :
  blank raw_text = false ->
  exists d,
    parse_fields lim PARSING_RULES raw_text ∅ = Return d /\
    parse_text lim raw_text = Return (Some d).
Proof.
  intros Hb. unfold parse_text. rewrite blank_nil_or_strip, Hb. cbv iota.
  destruct (parse_fields_total lim raw_text _ PARSING_RULES_well_grouped ∅)
    as (d & Hd).
  exists d. rewrite Hd. auto.
Qed.

(** C4: [parse_text] returns [None] exactly when the text is empty or
    whitespace only, and a record for every other text. *)
Theorem parse_text_none_iff_blank (lim : nat) (raw_text : str) :
  (parse_text lim raw_text = Return None <-> blank raw_text = true) /\
  (blank raw_text = false ->
   exists d, parse_text lim raw_text = Return (Some d)).
Proof.
  split.
  - split; [|apply parse_text_blank].
    destruct (blank raw_text) eqn:Hb; [reflexivity|].
    destruct (parse_text_record lim raw_text Hb) as (d & _ & ->). discriminate.
  - intros Hb. destruct (parse_text_record lim raw_text Hb) as (d & _ & ->).
    eauto.
Qed.

(** C5: the record of a text that is not blank has an entry for every
    key of the rule table, and the entry of a field none of whose
    patterns matches is the empty string. *)
Theorem parse_text_every_field (lim : nat) (raw_text : str) :
  blank raw_text = false ->
  exists d,
    parse_text lim raw_text = Return (Some d) /\
    forall field patterns,
      (field, patterns) ∈ PARSING_RULES ->
      exists value : str,
        d !! field = Some value /\
        (Forall (no_match raw_text) patterns -> value = []).
Proof.
  intros Hb. destruct (parse_text_record lim raw_text Hb) as (d & Hd & Hp).
  exists d. split; [exact Hp|]. intros field patterns Hin.
  destruct (parse_fields_lookup lim raw_text _ _ _ _ _
              PARSING_RULES_keys_NoDup Hd Hin) as (found & Hf & Hl).
  exists (stored found). split; [exact Hl|].
  intros Hnone. rewrite (first_match_none lim raw_text field patterns Hnone) in Hf.
  injection Hf as <-. reflexivity.
Qed.

Lemma parse_text_every_field_witness :
  exists d,
    parse_text 4300 (py "nothing to see") = Return (Some d) /\
    forall field patterns,
      (field, patterns) ∈ PARSING_RULES ->
      exists value : str,
        d !! field = Some value /\
        (Forall (no_match (py "nothing to see")) patterns -> value = []).
Proof. apply (parse_text_every_field 4300 (py "nothing to see")). reflexivity. Defined.

Lemma parse_text_none_iff_blank_witness :
  (parse_text 4300 (py "   ") = Return None <-> blank (py "   ") = true) /\
  exists d, parse_text 4300 (py " x ") = Return (Some d).
Proof.
  split.
  - apply (parse_text_none_iff_blank 4300 (py "   ")).
  - apply (parse_text_none_iff_blank 4300 (py " x ")). reflexivity.
Defined.

(** ** [is_valid_data] *)

Lemma is_valid_data_spec (d : dict) :
  is_valid_data (Some d)
  = Return (essential_ok (d !! "Category") && essential_ok (d !! "Result")).
Proof.
  unfold is_valid_data, dict_truthy. case_bool_decide as He; simpl.
  - subst d. rewrite !lookup_empty. reflexivity.
  - unfold dict_contains, dict_getitem.
    destruct (d !! "Category") as [c|]; simpl; [|reflexivity].
    destruct (str_truthy (str_strip c)); simpl; [|reflexivity].
    destruct (d !! "Result") as [r|]; simpl; [|reflexivity].
    destruct (str_truthy (str_strip r)); simpl; [|reflexivity].
    destruct (str_truthy (str_strip (dict_get d "Question Number" [])));
      [reflexivity|].
    destruct (str_truthy (str_strip (dict_get d "Question Text" [])));
      reflexivity.
Qed.

Lemma essential_ok_iff (entry : option str) :
  essential_ok entry = true <-> exists v, entry = Some v /\ str_strip v <> [].
Proof.
  destruct entry as [v|]; simpl.
  - split.
    + intros H. exists v. split; [reflexivity|].
      intros E. rewrite E in H. discriminate.
    + intros (v' & [= <-] & H). destruct (str_strip v); [congruence|reflexivity].
  - split; [discriminate|]. intros (v & H & _). discriminate.
Qed.

(** C3: a null record is invalid; a record is valid exactly when its
    Category and its Result are not blank; no other field changes the
    verdict, and a record whose Category is the empty string is
    rejected. *)
Theorem is_valid_data_category_and_result (d : dict) :
  is_valid_data None = Return false /\
  (exists verdict : bool,
     is_valid_data (Some d) = Return verdict /\
     (verdict = true <->
      (exists c, d !! "Category" = Some c /\ str_strip c <> []) /\
      (exists r, d !! "Result" = Some r /\ str_strip r <> []))) /\
  (forall (field : string) (value : str),
     field <> "Category" -> field <> "Result" ->
     is_valid_data (Some (<[field := value]> d)) = is_valid_data (Some d) /\
     is_valid_data (Some (delete field d)) = is_valid_data (Some d)) /\
  (d !! "Category" = Some [] -> is_valid_data (Some d) = Return false).
Proof.
  split; [reflexivity|]. split; [|split].
  - eexists. split; [apply is_valid_data_spec|].
    rewrite andb_true_iff, !essential_ok_iff. reflexivity.
  - intros field value Hc Hr. rewrite !is_valid_data_spec.
    rewrite !lookup_insert_ne, !lookup_delete_ne by congruence. auto.
  - intros Hc. rewrite is_valid_data_spec, Hc. reflexivity.
Qed.

Lemma is_valid_data_category_and_result_witness :
  is_valid_data (Some rejected_record) = Return false.
Proof.
  apply (is_valid_data_category_and_result rejected_record). reflexivity.
Defined.

(** C9: two records with the same Category entry and the same Result
    entry get the same verdict, and once both entries are not blank the
    verdict is [True] whatever the other fields hold. *)
Theorem is_valid_data_same_essentials (d1 d2 : dict) :
  d1 !! "Category" = d2 !! "Category" ->
  d1 !! "Result" = d2 !! "Result" ->
  is_valid_data (Some d1) = is_valid_data (Some d2) /\
  (essential_ok (d1 !! "Category") && essential_ok (d1 !! "Result") = true ->
   is_valid_data (Some d2) = Return true).
Proof.
  intros Hc Hr. rewrite !is_valid_data_spec, Hc, Hr. split; [reflexivity|].
  intros ->. reflexivity.
Qed.

Lemma is_valid_data_same_essentials_witness :
  is_valid_data (Some record_a) = is_valid_data (Some record_b) /\
  is_valid_data (Some record_b) = Return true.
Proof.
  destruct (is_valid_data_same_essentials record_a record_b) as [H1 H2];
    [reflexivity | reflexivity |].
  split; [exact H1 | apply H2; reflexivity].
Defined.

(** C10: a record that is not empty and lacks the Category key or the
    Result key is invalid, without an exception, just as a record in
    which that key holds a blank value. *)
Theorem is_valid_data_missing_key (d : dict) :
  d <> ∅ ->
  d !! "Category" = None \/ d !! "Result" = None ->
  is_valid_data (Some d) = Return false /\
  forall (field : string) (value : str),
    field = "Category" \/ field = "Result" ->
    blank value = true ->
    is_valid_data (Some (<[field := value]> d)) = Return false.
Proof.
  intros _ Hmiss. split.
  - rewrite is_valid_data_spec.
    destruct Hmiss as [-> | ->]; [reflexivity | simpl; rewrite andb_false_r; reflexivity].
  - intros field value Hf Hb. rewrite is_valid_data_spec.
    apply str_strip_nil_iff in Hb.
    destruct Hf as [-> | ->].
    + rewrite lookup_insert_eq. simpl. rewrite Hb. reflexivity.
    + rewrite (lookup_insert_eq d "Result"). simpl. rewrite Hb. simpl.
      rewrite andb_false_r. reflexivity.
Qed.

Lemma is_valid_data_missing_key_witness :
  is_valid_data (Some record_without_category) = Return false.
Proof.
  apply (is_valid_data_missing_key record_without_category).
  - intros E. apply (f_equal (fun m : dict => m !! "Result")) in E.
    vm_compute in E. discriminate.
  - left. reflexivity.
Defined.

(** ** [in] and [split] *)

Lemma char_eqb_eq (a b : ascii) : Char.eqb a b = true <-> a = b.
Proof. apply Ascii.eqb_eq. Qed.

Lemma char_eqb_neq (a b : ascii) : Char.eqb a b = false <-> a <> b.
Proof. apply Ascii.eqb_neq. Qed.

Lemma startswith_iff (p s : str) :
  startswith p s = true <-> exists post, s = p ++ post.
Proof.
  revert s. induction p as [|a p IH]; intros s; simpl.
  - split; eauto.
  - destruct s as [|b s].
    + split; [discriminate|]. intros (post & H). discriminate.
    + rewrite andb_true_iff, char_eqb_eq, IH. split.
      * intros (-> & post & ->). eauto.
      * intros (post & [= -> ->]). eauto.
Qed.

(** [p in s]: [p] occurs in [s] *)
Lemma str_contains_iff (p s : str) :
  str_contains p s = true <-> exists pre post, s = pre ++ p ++ post.
Proof.
  induction s as [|c t IH].
  - simpl. rewrite orb_false_r, startswith_iff. split.
    + intros (post & H). exists [], post. exact H.
    + intros (pre & post & H). symmetry in H.
      apply app_eq_nil in H as [-> H]. exists post. symmetry. exact H.
  - simpl. rewrite orb_true_iff, startswith_iff, IH. split.
    + intros [(post & H) | (pre & post & H)].
      * exists [], post. exact H.
      * exists (c :: pre), post. rewrite H. reflexivity.
    + intros ([|a pre] & post & H).
      * left. exists post. exact H.
      * right. injection H as -> H. eauto.
Qed.

Lemma str_contains_char (c : ascii) (s : str) :
  str_contains [c] s = true <-> c ∈ s.
Proof.
  rewrite str_contains_iff. split.
  - intros (pre & post & ->). rewrite elem_of_app. right. left.
  - intros (l1 & l2 & ->)%list_elem_of_split. eauto.
Qed.

Lemma split_on_nonempty (sep : ascii) (s cur : str) : split_on sep s cur <> [].
Proof.
  revert cur. induction s as [|c t IH]; intros cur; simpl; [discriminate|].
  destruct (Char.eqb c sep); [discriminate | apply IH].
Qed.

Lemma split_on_no_sep (sep : ascii) (s cur : str) :
  sep ∉ s -> split_on sep s cur = [rev cur ++ s].
Proof.
  revert cur. induction s as [|c t IH]; intros cur Hn; simpl.
  - rewrite app_nil_r. reflexivity.
  - apply not_elem_of_cons in Hn as [Hc Hn].
    assert (Char.eqb c sep = false) as -> by (apply char_eqb_neq; congruence).
    rewrite (IH _ Hn). simpl. rewrite <- app_assoc. reflexivity.
Qed.

Lemma split_on_sep (sep : ascii) (p0 t cur : str) :
  sep ∉ p0 ->
  split_on sep (p0 ++ sep :: t) cur = (rev cur ++ p0) :: split_on sep t [].
Proof.
  revert cur. induction p0 as [|c p0 IH]; intros cur Hn; simpl.
  - assert (Char.eqb sep sep = true) as -> by (apply char_eqb_eq; reflexivity).
    rewrite app_nil_r. reflexivity.
  - apply not_elem_of_cons in Hn as [Hc Hn].
    assert (Char.eqb c sep = false) as -> by (apply char_eqb_neq; congruence).
    rewrite (IH _ Hn). simpl. rewrite <- app_assoc. reflexivity.
Qed.

(** [s.split(sep)] has exactly two parts when [sep] occurs exactly once *)
Lemma str_split_two (sep : ascii) (s p0 p1 : str) :
  str_split sep s = [p0; p1] <->
  s = p0 ++ (sep :: p1) /\ (sep ∉ p0) /\ (sep ∉ p1).
Proof.
  unfold str_split. split.
  - intros H. destruct (decide (sep ∈ s)) as [Hin|Hn].
    + apply list_elem_of_split_l in Hin as (l1 & l2 & -> & Hl1).
      rewrite (split_on_sep _ _ _ _ Hl1) in H. simpl in H.
      injection H as <- H.
      destruct (decide (sep ∈ l2)) as [Hin2|Hn2].
      * apply list_elem_of_split_l in Hin2 as (m1 & m2 & -> & Hm1).
        rewrite (split_on_sep _ _ _ _ Hm1) in H. injection H as _ H.
        exfalso. exact (split_on_nonempty _ _ _ H).
      * rewrite (split_on_no_sep _ _ _ Hn2) in H. injection H as <-. auto.
    + rewrite (split_on_no_sep _ _ _ Hn) in H. discriminate.
  - intros (-> & H0 & H1).
    rewrite (split_on_sep _ _ _ _ H0), (split_on_no_sep _ _ _ H1). reflexivity.
Qed.

(** ** The first matching pattern *)

Lemma parse_text_field_value (lim : nat) (raw_text : str)
    (field : string) (before : list string) (pattern : string)
    (after : list string) (m : Match) (raw : str) :
  blank raw_text = false ->
  (field, before ++ pattern :: after) ∈ PARSING_RULES ->
  Forall (no_match raw_text) before ->
  re_search pattern raw_text flags = Return (Some m) ->
  match_value m = Return raw ->
  (forall later,
     first_match lim field (before ++ pattern :: later) raw_text
     = Return (Some (normalize lim field raw))) /\
  exists d,
    parse_text lim raw_text = Return (Some d) /\
    d !! field = Some (normalize lim field raw).
Proof.
  intros Hb Hin Hbefore Hm Hv.
  assert (Hfirst : forall later,
             first_match lim field (before ++ pattern :: later) raw_text
             = Return (Some (normalize lim field raw))).
  { intros later. rewrite (first_match_skip lim raw_text field _ _ Hbefore).
    apply (first_match_hit lim raw_text field pattern later m raw Hm Hv). }
  split; [exact Hfirst|].
  destruct (parse_text_record lim raw_text Hb) as (d & Hd & Hp).
  destruct (parse_fields_lookup lim raw_text _ _ _ _ _
              PARSING_RULES_keys_NoDup Hd Hin) as (found & Hf & Hl).
  rewrite Hfirst in Hf. injection Hf as <-.
  exists d. auto.
Qed.

Lemma parse_text_first_match (lim : nat) (raw_text : str)
    (field : string) (before : list string) (pattern : string)
    (after : list string) (m : Match) :
  blank raw_text = false ->
  (field, before ++ pattern :: after) ∈ PARSING_RULES ->
  Forall (no_match raw_text) before ->
  re_search pattern raw_text flags = Return (Some m) ->
  exists r raw d,
    re_compile pattern = Some r /\
    raw_value r m raw /\
    (forall later,
       first_match lim field (before ++ pattern :: later) raw_text
       = Return (Some (normalize lim field raw))) /\
    parse_text lim raw_text = Return (Some d) /\
    d !! field = Some (normalize lim field raw).
Proof.
  intros Hb Hin Hbefore Hm.
  assert (Hw : well_grouped pattern = true).
  { pose proof PARSING_RULES_well_grouped as H.
    rewrite Forall_forall in H. specialize (H _ Hin). simpl in H.
    rewrite Forall_forall in H. apply H.
    rewrite elem_of_app. right. left. }
  destruct (re_search_well_grouped pattern raw_text flags Hw)
    as (r & om & Hr & Hs & Hom).
  rewrite Hm in Hs. injection Hs as <-.
  destruct (Hom m eq_refl) as (_ & raw & Hv & Hraw).
  destruct (parse_text_field_value lim raw_text field before pattern after
              m raw Hb Hin Hbefore Hm Hv) as (Hfirst & d & Hp & Hl).
  exists r, raw, d. auto.
Qed.

(** membership in the rule table, by evaluation *)
Ltac in_rules := apply (bool_decide_unpack _); vm_compute; exact I.

(** a closed equation, by evaluation *)
Ltac by_eval := vm_compute; reflexivity.

(** C1: for every field of the rule table, the patterns are tried in
    their order against the whole raw text, case-insensitively and with
    [.] matching newlines; the first one that matches gives the raw
    value of the field (the trimmed group 1 if the pattern has a group,
    the trimmed whole match if not), whatever patterns come after it. *)
Theorem parse_text_first_pattern_wins (lim : nat) (raw_text : str)
    (field : string) (before : list string) (pattern : string)
    (after : list string) (m : Match) :
  blank raw_text = false ->
  (field, before ++ pattern :: after) ∈ PARSING_RULES ->
  Forall (fun p => re_search p raw_text (Flags true true true) = Return None)
    before ->
  re_search pattern raw_text (Flags true true true) = Return (Some m) ->
  exists r raw d,
    re_compile pattern = Some r /\
    raw_value r m raw /\
    (forall later,
       first_match lim field (before ++ pattern :: later) raw_text
       = Return (Some (normalize lim field raw))) /\
    parse_text lim raw_text = Return (Some d) /\
    d !! field = Some (normalize lim field raw).
Proof. apply parse_text_first_match. Qed.

Lemma parse_text_first_pattern_wins_witness :
  exists r raw d,
    re_compile "\b(Correct|Incorrect)\b" = Some r /\
    raw_value r incorrect_match raw /\
    (forall later,
       first_match 4300 "Result"
         (["Your result is (\w+)\."; "✓.*?(Correct)"]
          ++ "\b(Correct|Incorrect)\b" :: later) (py "INCORRECT")
       = Return (Some (normalize 4300 "Result" raw))) /\
    parse_text 4300 (py "INCORRECT") = Return (Some d) /\
    d !! "Result" = Some (normalize 4300 "Result" raw).
Proof.
  apply (parse_text_first_pattern_wins 4300 (py "INCORRECT") "Result"
           ["Your result is (\w+)\."; "✓.*?(Correct)"]
           "\b(Correct|Incorrect)\b"
           ["Correct Answer.*?Your Answer.*?([A-Z])\s*✓"]
           incorrect_match).
  - by_eval.
  - in_rules.
  - repeat constructor.
  - by_eval.
Defined.

(** ** The Result field *)

(** C8: the Result entry is the raw matched value with its first
    character upper-cased and the others lower-cased; a text whose
    result reads [correct] or [INCORRECT] gets [Correct] or
    [Incorrect]. *)
Theorem result_is_capitalized (lim : nat) :
  (forall (raw_text : str) (before : list string) (pattern : string)
          (after : list string) (m : Match),
     blank raw_text = false ->
     ("Result", before ++ pattern :: after) ∈ PARSING_RULES ->
     Forall (no_match raw_text) before ->
     re_search pattern raw_text flags = Return (Some m) ->
     exists r raw d,
       re_compile pattern = Some r /\
       raw_value r m raw /\
       parse_text lim raw_text = Return (Some d) /\
       d !! "Result"
       = Some match raw with
              | [] => []
              | c :: t => Char.upper c :: map Char.lower t
              end) /\
  (exists d, parse_text lim (py "Your result is correct.") = Return (Some d) /\
             d !! "Result" = Some (py "Correct")) /\
  (exists d, parse_text lim (py "INCORRECT") = Return (Some d) /\
             d !! "Result" = Some (py "Incorrect")).
Proof.
  split; [|split].
  - intros raw_text before pattern after m Hb Hin Hbefore Hm.
    destruct (parse_text_first_match lim raw_text _ _ _ _ _ Hb Hin Hbefore Hm)
      as (r & raw & d & Hr & Hraw & _ & Hp & Hl).
    exists r, raw, d. auto.
  - apply (parse_text_field_value lim (py "Your result is correct.") "Result"
             [] "Your result is (\w+)\."
             ["✓.*?(Correct)"; "\b(Correct|Incorrect)\b";
              "Correct Answer.*?Your Answer.*?([A-Z])\s*✓"]
             correct_match (py "correct")).
    + by_eval.
    + in_rules.
    + constructor.
    + by_eval.
    + by_eval.
  - apply (parse_text_field_value lim (py "INCORRECT") "Result"
             ["Your result is (\w+)\."; "✓.*?(Correct)"]
             "\b(Correct|Incorrect)\b"
             ["Correct Answer.*?Your Answer.*?([A-Z])\s*✓"]
             incorrect_match (py "INCORRECT")).
    + by_eval.
    + in_rules.
    + repeat constructor.
    + by_eval.
    + by_eval.
Qed.

Lemma result_is_capitalized_witness :
  exists r raw d,
    re_compile "\b(Correct|Incorrect)\b" = Some r /\
    raw_value r incorrect_match raw /\
    parse_text 4300 (py "INCORRECT") = Return (Some d) /\
    d !! "Result"
    = Some match raw with
           | [] => []
           | c :: t => Char.upper c :: map Char.lower t
           end.
Proof.
  apply (proj1 (result_is_capitalized 4300) (py "INCORRECT")
           ["Your result is (\w+)\."; "✓.*?(Correct)"]
           "\b(Correct|Incorrect)\b"
           ["Correct Answer.*?Your Answer.*?([A-Z])\s*✓"]
           incorrect_match).
  - by_eval.
  - in_rules.
  - repeat constructor.
  - by_eval.
Defined.

(** ** The Time Spent field *)

Lemma mentions_seconds_iff (raw : str) :
  str_contains (py "sec") (str_lower raw) = true <-> mentions_seconds raw.
Proof.
  rewrite str_contains_iff. unfold mentions_seconds, str_lower. split.
  - intros (pre & post & H).
    apply fmap_app_inv in H as (pre' & rest' & Hpre & Hrest & ->).
    symmetry in Hrest.
    apply fmap_app_inv in Hrest as (mid' & post' & Hm & Hpost & ->).
    exists pre', mid', post'. auto.
  - intros (pre & mid & post & -> & Hm).
    exists (map Char.lower pre), (map Char.lower post).
    rewrite !map_app, Hm. reflexivity.
Qed.

Lemma mm_ss_split (lim : nat) (raw : str) (minutes seconds : Z) :
  mm_ss lim raw minutes seconds <->
  exists p0 p1,
    str_split ":" raw = [p0; p1] /\
    int lim p0 = Some minutes /\ int lim p1 = Some seconds /\
    0 <= minutes <= 999 /\ 0 <= seconds <= 59.
Proof.
  unfold mm_ss. split.
  - intros (p0 & p1 & H & H0 & H1 & Hrest). exists p0, p1.
    split; [apply str_split_two; auto | exact Hrest].
  - intros (p0 & p1 & (H & H0 & H1)%str_split_two & Hrest).
    exists p0, p1. auto.
Qed.

Lemma convert_time_spec (lim : nat) (raw : str) :
  (mentions_seconds raw -> convert_time lim raw = raw) /\
  (~ mentions_seconds raw ->
   forall minutes seconds,
     mm_ss lim raw minutes seconds ->
     convert_time lim raw = render_time minutes seconds) /\
  (~ mentions_seconds raw ->
   ~ (exists minutes seconds, mm_ss lim raw minutes seconds) ->
   convert_time lim raw = raw).
Proof.
  unfold convert_time.
  destruct (str_contains (py "sec") (str_lower raw)) eqn:Hsec.
  { apply mentions_seconds_iff in Hsec. repeat split; tauto. }
  assert (Hnot : ~ mentions_seconds raw).
  { intros H. apply mentions_seconds_iff in H. congruence. }
  split; [tauto|]. split.
  - intros _ minutes seconds Hmm. pose proof Hmm as Hcolon.
    destruct Hcolon as (q0 & q1 & -> & _).
    apply mm_ss_split in Hmm as (p0 & p1 & Hs & H0 & H1 & Hm & Hsd).
    assert (str_contains (py ":") (q0 ++ ":"%char :: q1) = true) as ->.
    { apply (str_contains_char ":"). rewrite elem_of_app. right. left. }
    rewrite Hs, H0, H1.
    assert ((0 <=? minutes) && (minutes <=? 999)
            && (0 <=? seconds) && (seconds <=? 59) = true) as ->.
    { rewrite !andb_true_iff, !Z.leb_le. lia. }
    reflexivity.
  - intros _ Hno.
    destruct (str_contains (py ":") raw); [|reflexivity].
    destruct (str_split ":" raw) as [|p0 [|p1 [|p2 parts]]] eqn:Hs;
      try reflexivity.
    destruct (int lim p0) as [minutes|] eqn:H0; [|reflexivity].
    destruct (int lim p1) as [seconds|] eqn:H1; [|reflexivity].
    destruct ((0 <=? minutes) && (minutes <=? 999)
              && (0 <=? seconds) && (seconds <=? 59)) eqn:Hr; [|reflexivity].
    exfalso. apply Hno. exists minutes, seconds. apply mm_ss_split.
    exists p0, p1. rewrite !andb_true_iff, !Z.leb_le in Hr.
    repeat split; auto; lia.
Qed.

(** C2: the Time Spent entry.  A raw value that mentions seconds is
    stored as it is; otherwise a value of the form [MM:SS] with minutes
    in [0,999] and seconds in [0,59] is rendered in seconds, or in
    minutes and seconds; otherwise (a part that is not an integer, not
    exactly two parts, a part out of range) the raw value is stored as it
    is, and [parse_text] returns its record in every case. *)
Theorem time_spent_is_converted (lim : nat) :
  (forall (raw_text : str) (before : list string) (pattern : string)
          (after : list string) (m : Match),
     blank raw_text = false ->
     ("Time Spent", before ++ pattern :: after) ∈ PARSING_RULES ->
     Forall (no_match raw_text) before ->
     re_search pattern raw_text flags = Return (Some m) ->
     exists r raw d value,
       re_compile pattern = Some r /\
       raw_value r m raw /\
       parse_text lim raw_text = Return (Some d) /\
       d !! "Time Spent" = Some value /\
       (mentions_seconds raw -> value = raw) /\
       (~ mentions_seconds raw ->
        forall minutes seconds,
          mm_ss lim raw minutes seconds ->
          value = if minutes =? 0
                  then PyInt.format seconds ++ py " secs"
                  else PyInt.format minutes ++ py " mins "
                       ++ PyInt.format seconds ++ py " secs") /\
       (~ mentions_seconds raw ->
        ~ (exists minutes seconds, mm_ss lim raw minutes seconds) ->
        value = raw)) /\
  (exists d, parse_text lim (py "Total: 00:03") = Return (Some d) /\
             d !! "Time Spent" = Some (py "3 secs")) /\
  (exists d, parse_text lim (py "This Question:01:36") = Return (Some d) /\
             d !! "Time Spent" = Some (py "1 mins 36 secs")) /\
  (exists d, parse_text lim (py "Time Spent: 3 secs") = Return (Some d) /\
             d !! "Time Spent" = Some (py "3 secs")) /\
  (exists d, parse_text lim (py "Time Spent: abc:def") = Return (Some d) /\
             d !! "Time Spent" = Some (py "abc:def")).
Proof.
  split; [|split; [|split; [|split]]].
  - intros raw_text before pattern after m Hb Hin Hbefore Hm.
    destruct (parse_text_first_match lim raw_text _ _ _ _ _ Hb Hin Hbefore Hm)
      as (r & raw & d & Hr & Hraw & _ & Hp & Hl).
    exists r, raw, d, (convert_time lim raw).
    split; [exact Hr|]. split; [exact Hraw|]. split; [exact Hp|].
    split; [exact Hl|]. apply convert_time_spec.
  - apply (parse_text_field_value lim (py "Total: 00:03") "Time Spent"
             [] "Total:\s*(\d{2}:\d{2})"
             ["This Question:\s*(\d{2}:\d{2})"; "Time Spent:\s*(\d+ secs?)";
              "Time Spent:\s*([^\n]*?)(?=\n|$)"]
             (MkMatch (py "Total: 00:03") [Some (py "00:03")]) (py "00:03")).
    + by_eval.
    + in_rules.
    + constructor.
    + by_eval.
    + by_eval.
  - apply (parse_text_field_value lim (py "This Question:01:36") "Time Spent"
             ["Total:\s*(\d{2}:\d{2})"] "This Question:\s*(\d{2}:\d{2})"
             ["Time Spent:\s*(\d+ secs?)"; "Time Spent:\s*([^\n]*?)(?=\n|$)"]
             (MkMatch (py "This Question:01:36") [Some (py "01:36")])
             (py "01:36")).
    + by_eval.
    + in_rules.
    + repeat constructor.
    + by_eval.
    + by_eval.
  - apply (parse_text_field_value lim (py "Time Spent: 3 secs") "Time Spent"
             ["Total:\s*(\d{2}:\d{2})"; "This Question:\s*(\d{2}:\d{2})"]
             "Time Spent:\s*(\d+ secs?)"
             ["Time Spent:\s*([^\n]*?)(?=\n|$)"]
             (MkMatch (py "Time Spent: 3 secs") [Some (py "3 secs")])
             (py "3 secs")).
    + by_eval.
    + in_rules.
    + repeat constructor.
    + by_eval.
    + by_eval.
  - apply (parse_text_field_value lim (py "Time Spent: abc:def") "Time Spent"
             ["Total:\s*(\d{2}:\d{2})"; "This Question:\s*(\d{2}:\d{2})";
              "Time Spent:\s*(\d+ secs?)"]
             "Time Spent:\s*([^\n]*?)(?=\n|$)" []
             (MkMatch (py "Time Spent: abc:def") [Some (py "abc:def")])
             (py "abc:def")).
    + by_eval.
    + in_rules.
    + repeat constructor.
    + by_eval.
    + by_eval.
Qed.

Lemma time_spent_is_converted_witness :
  exists r raw d value,
    re_compile "Total:\s*(\d{2}:\d{2})" = Some r /\
    raw_value r total_match raw /\
    parse_text 4300 (py "Total: 00:03") = Return (Some d) /\
    d !! "Time Spent" = Some value /\
    (mentions_seconds raw -> value = raw) /\
    (~ mentions_seconds raw ->
     forall minutes seconds,
       mm_ss 4300 raw minutes seconds ->
       value = if minutes =? 0
               then PyInt.format seconds ++ py " secs"
               else PyInt.format minutes ++ py " mins "
                    ++ PyInt.format seconds ++ py " secs") /\
    (~ mentions_seconds raw ->
     ~ (exists minutes seconds, mm_ss 4300 raw minutes seconds) ->
     value = raw).
Proof.
  apply (proj1 (time_spent_is_converted 4300) (py "Total: 00:03")
           [] "Total:\s*(\d{2}:\d{2})"
           ["This Question:\s*(\d{2}:\d{2})"; "Time Spent:\s*(\d+ secs?)";
            "Time Spent:\s*([^\n]*?)(?=\n|$)"]
           total_match).
  - by_eval.
  - in_rules.
  - constructor.
  - by_eval.
Defined.

(** ** [clean_text_field] *)

Lemma re_compile_newline : re_compile "\r?\n" = Some newline_re.
Proof. by_eval. Qed.

Lemma re_compile_spaces : re_compile "\s+" = Some spaces_re.
Proof. by_eval. Qed.

Lemma repeat_spaces (s : str) :
  forall (n p : nat) (pv : option ascii),
    Sre.repeat no_flags (ASet false [SSpace]) 1 None true n p pv s
      (fun cur' => Some (pos cur', @nil (option (nat * nat))))
    = if Nat.leb 1 (n + span s) then Some ((p + span s)%nat, []) else None.
Proof.
  induction s as [|c t IH]; intros n p pv; simpl.
  - rewrite !Nat.add_0_r. reflexivity.
  - rewrite orb_false_r. destruct (Char.isspace c); simpl.
    + rewrite IH. rewrite !Nat.add_succ_r. simpl. reflexivity.
    + rewrite !Nat.add_0_r. reflexivity.
Qed.

Lemma match_at_spaces (p : nat) (pv : option ascii) (s : str) :
  Sre.match_at no_flags spaces_re false (Cursor p pv s)
  = if Nat.eqb (span s) 0 then None else Some ((p + span s)%nat, []).
Proof.
  unfold Sre.match_at, spaces_re. simpl Sre.run.
  rewrite (repeat_spaces s 0 p pv). simpl.
  destruct (span s); reflexivity.
Qed.

Lemma sub_from_spaces (s : str) :
  forall (p : nat) (pv : option ascii),
    Sre.sub_from no_flags spaces_re (py " ") p pv s 0 = collapse false s /\
    Sre.sub_from no_flags spaces_re (py " ") p pv s (span s) = collapse true s.
Proof.
  induction s as [|c t IH]; intros p pv.
  - split; reflexivity.
  - cbn [Sre.sub_from span collapse]. rewrite match_at_spaces.
    cbn [span]. destruct (Char.isspace c) eqn:Hc.
    + destruct (IH (S p) (Some c)) as [_ IH2]. split; [|exact IH2].
      simpl Nat.eqb. cbv iota.
      assert (Nat.ltb p (p + S (span t)) = true) as ->
        by (apply Nat.ltb_lt; lia).
      replace (p + S (span t) - p - 1)%nat with (span t) by lia.
      rewrite IH2. reflexivity.
    + destruct (IH (S p) (Some c)) as [IH1 _].
      simpl Nat.eqb. cbv iota. rewrite IH1. auto.
Qed.

Lemma char_eqb_sym (a b : ascii) : Char.eqb a b = Char.eqb b a.
Proof. apply Ascii.eqb_sym. Qed.

Lemma match_at_newline (p : nat) (pv : option ascii) (s : str) :
  Sre.match_at no_flags newline_re false (Cursor p pv s)
  = match s with
    | [] => None
    | c :: t =>
        if Char.eqb c ReParse.LF then Some (S p, [])
        else
          match t with
          | d :: _ =>
              if Char.eqb c ReParse.CR && Char.eqb d ReParse.LF
              then Some (S (S p), [])
              else None
          | [] => None
          end
    end.
Proof.
  unfold Sre.match_at, newline_re.
  destruct s as [|c t]; [reflexivity|].
  cbn -[Char.eqb ReParse.LF ReParse.CR].
  rewrite (char_eqb_sym ReParse.CR c), (char_eqb_sym ReParse.LF c).
  destruct (Char.eqb c ReParse.CR) eqn:Hcr.
  - apply char_eqb_eq in Hcr. subst c.
    change (Char.eqb ReParse.CR ReParse.LF) with false. cbv iota.
    destruct t as [|d t']; [reflexivity|].
    cbn -[Char.eqb ReParse.LF ReParse.CR].
    rewrite (char_eqb_sym ReParse.LF d).
    destruct (Char.eqb d ReParse.LF); reflexivity.
  - cbn -[Char.eqb ReParse.LF ReParse.CR].
    destruct (Char.eqb c ReParse.LF); [reflexivity|].
    destruct t; reflexivity.
Qed.

Lemma sub_from_newline (s : str) :
  forall (p : nat) (pv : option ascii),
    Sre.sub_from no_flags newline_re (py " ") p pv s 0 = sub_newlines s.
Proof.
  induction s as [s IH] using (induction_ltof1 _ (@length ascii)).
  unfold ltof in IH. intros p pv.
  destruct s as [|c t]; [reflexivity|].
  cbn [Sre.sub_from sub_newlines]. rewrite match_at_newline.
  destruct (Char.eqb c ReParse.LF).
  - assert (Nat.ltb p (S p) = true) as -> by (apply Nat.ltb_lt; lia).
    replace (S p - p - 1)%nat with 0%nat by lia.
    rewrite IH by (simpl; lia). reflexivity.
  - destruct t as [|d t'].
    + reflexivity.
    + destruct (Char.eqb c ReParse.CR && Char.eqb d ReParse.LF).
      * assert (Nat.ltb p (S (S p)) = true) as -> by (apply Nat.ltb_lt; lia).
        replace (S (S p) - p - 1)%nat with 1%nat by lia.
        cbn [Sre.sub_from]. rewrite IH by (simpl; lia). reflexivity.
      * rewrite IH by (simpl; lia). reflexivity.
Qed.

(** what [clean_text_field] computes *)
Lemma clean_text_field_spec (text : str) :
  clean_text_field text = Return (spec_sanitize text).
Proof.
  unfold clean_text_field, re_sub, spec_sanitize.
  rewrite re_compile_newline, re_compile_spaces.
  destruct text as [|c t]; [reflexivity|].
  cbn [str_truthy negb bind].
  rewrite sub_from_newline.
  rewrite (proj1 (sub_from_spaces _ 0%nat None)). reflexivity.
Qed.

Lemma tidy_collapse (s : str) : forall b, tidy b (collapse b s) = true.
Proof.
  induction s as [|c t IH]; intros b; [reflexivity|].
  simpl. destruct (Char.isspace c) eqn:Hc.
  - destruct b; [apply IH|]. simpl. apply IH.
  - simpl. rewrite Hc. apply IH.
Qed.

Lemma collapse_tidy (s : str) : forall b, tidy b s = true -> collapse b s = s.
Proof.
  induction s as [|c t IH]; intros b; [reflexivity|].
  simpl. destruct (Char.isspace c).
  - intros [[Hc Hb]%andb_prop Ht]%andb_prop.
    apply char_eqb_eq in Hc. subst c.
    destruct b; [discriminate|]. rewrite (IH true Ht). reflexivity.
  - intros Ht. rewrite (IH false Ht). reflexivity.
Qed.

Lemma tidy_lstrip (s : str) :
  forall b b', tidy b s = true -> tidy b' (lstrip s) = true.
Proof.
  induction s as [|c t IH]; intros b b'; [reflexivity|].
  simpl. destruct (Char.isspace c) eqn:Hc.
  - intros [_ Ht]%andb_prop. apply (IH true), Ht.
  - intros Ht. simpl. rewrite Hc. exact Ht.
Qed.

Lemma tidy_rstrip (s : str) :
  forall b, tidy b s = true -> tidy b (rstrip s) = true.
Proof.
  induction s as [|c t IH]; intros b; [reflexivity|].
  simpl. destruct (rstrip t) as [|a t'] eqn:Hr.
  - destruct (Char.isspace c) eqn:Hc; [reflexivity|].
    intros _. simpl. rewrite Hc. reflexivity.
  - destruct (Char.isspace c) eqn:Hc.
    + intros [H Ht]%andb_prop. simpl tidy at 1. rewrite Hc.
      rewrite H. apply (IH true), Ht.
    + intros Ht. simpl tidy at 1. rewrite Hc. apply (IH false), Ht.
Qed.

Lemma tidy_no_newline (s : str) :
  forall b, tidy b s = true -> sub_newlines s = s.
Proof.
  induction s as [s IH] using (induction_ltof1 _ (@length ascii)).
  unfold ltof in IH. intros b.
  destruct s as [|c t]; [reflexivity|].
  cbn [tidy sub_newlines].
  destruct (Char.eqb c ReParse.LF) eqn:Hlf.
  - apply char_eqb_eq in Hlf. subst c. discriminate.
  - intros Ht.
    assert (Htail : exists b', tidy b' t = true).
    { destruct (Char.isspace c); [|eauto].
      apply andb_prop in Ht as [_ Ht]. eauto. }
    destruct Htail as (b' & Ht').
    destruct t as [|d t']; [reflexivity|].
    destruct (Char.eqb c ReParse.CR && Char.eqb d ReParse.LF) eqn:Hcrlf.
    + apply andb_prop in Hcrlf as [_ Hd]. apply char_eqb_eq in Hd. subst d.
      discriminate.
    + rewrite (IH (d :: t') ltac:(simpl; lia) b' Ht'). reflexivity.
Qed.

Lemma rstrip_idempotent (s : str) : rstrip (rstrip s) = rstrip s.
Proof.
  induction s as [|c t IH]; [reflexivity|].
  simpl. destruct (rstrip t) as [|a t'] eqn:Hr.
  - destruct (Char.isspace c) eqn:Hc; [reflexivity|].
    simpl. rewrite Hc. reflexivity.
  - change (rstrip (c :: a :: t')) with
      (match rstrip (a :: t') with
       | [] => if Char.isspace c then [] else [c]
       | u => c :: u
       end).
    rewrite IH. reflexivity.
Qed.

Lemma lstrip_nonspace_head (s : str) :
  match s with
  | c :: _ => Char.isspace c = false
  | [] => True
  end ->
  lstrip s = s.
Proof. destruct s as [|c t]; [reflexivity|]. simpl. intros ->. reflexivity. Qed.

Lemma str_strip_idempotent (s : str) : str_strip (str_strip s) = str_strip s.
Proof.
  unfold str_strip.
  assert (H : lstrip (rstrip (lstrip s)) = rstrip (lstrip s)).
  { apply lstrip_nonspace_head.
    destruct (lstrip s) as [|c t] eqn:Hs; [exact I|].
    pose proof (lstrip_head _ _ _ Hs) as Hc.
    rewrite (rstrip_cons_nonspace _ _ Hc). exact Hc. }
  rewrite H. apply rstrip_idempotent.
Qed.

(** C7: [clean_text_field] replaces each line terminator by a space,
    collapses each run of whitespace to one space and trims; applied to
    its own result it returns that result. *)
Theorem clean_text_field_idempotent (x : str) :
  exists y,
    clean_text_field x = Return y /\
    y = spec_sanitize x /\
    clean_text_field y = Return y.
Proof.
  exists (spec_sanitize x).
  split; [apply clean_text_field_spec|]. split; [reflexivity|].
  rewrite clean_text_field_spec. f_equal. unfold spec_sanitize.
  set (z := collapse false (sub_newlines x)).
  assert (Ht : tidy false (str_strip z) = true).
  { unfold str_strip. apply tidy_rstrip, (tidy_lstrip _ false).
    apply tidy_collapse. }
  rewrite (tidy_no_newline _ _ Ht), (collapse_tidy _ _ Ht).
  apply str_strip_idempotent.
Qed.

(** ** Totality *)

(** C6: on every text, [parse_text], [is_valid_data] (on the result of
    [parse_text] and on any record) and [clean_text_field] return a
    value; none of them raises. *)
Theorem core_never_raises (lim : nat) (text : str) :
  (exists record,
     parse_text lim text = Return record /\
     exists verdict, is_valid_data record = Return verdict) /\
  (forall data : option dict,
     exists verdict, is_valid_data data = Return verdict) /\
  (exists clean, clean_text_field text = Return clean).
Proof.
  assert (Hv : forall data : option dict,
             exists verdict, is_valid_data data = Return verdict).
  { intros [d|]; [|exists false; reflexivity].
    eexists. apply is_valid_data_spec. }
  split; [|split; [exact Hv|]].
  - destruct (blank text) eqn:Hb.
    + exists None. split; [apply parse_text_blank, Hb | apply Hv].
    + destruct (parse_text_record lim text Hb) as (d & _ & Hp).
      exists (Some d). split; [exact Hp | apply Hv].
  - eexists. apply clean_text_field_spec.
Qed.

(** ** A review screen, end to end *)

Example review_screen_record :
  match parse_text 4300 review_screen with
  | Return (Some d) =>
      d !! "Category"
      = Some (py "Application of the Code and Standards: Level II") /\
      d !! "Question Number" = Some (py "1 of 1") /\
      d !! "Result" = Some (py "Correct") /\
      d !! "Time Spent" = Some (py "3 secs") /\
      d !! "Confidence Level" = Some (py "High") /\
      d !! "Difficulty Level" = Some (py "Medium") /\
      is_valid_data (Some d) = Return true
  | _ => False
  end.
Proof. vm_compute. repeat split. Qed.

(** ** [int] and the formatting of an [int] agree *)

Lemma format_parse_roundtrip (lim : nat) (n : Z) :
  0 <= n <= 999 -> PyInt.parse lim (PyInt.format n) = Some n.
Proof.
  intros Hn.
  assert (H : forallb
                (fun k : nat =>
                   match PyInt.parse lim (PyInt.format (Z.of_nat k)) with
                   | Some v => v =? Z.of_nat k
                   | None => false
                   end) (seq 0 1000) = true) by (vm_compute; reflexivity).
  rewrite forallb_forall in H.
  specialize (H (Z.to_nat n)). rewrite Z2Nat.id in H by lia.
  destruct (PyInt.parse lim (PyInt.format n)) as [v|].
  - f_equal. apply Z.eqb_eq, H, in_seq. lia.
  - discriminate H. apply in_seq. lia.
Qed.

(** * Further properties of the extractor *)

(** ** The keys of the record *)

Lemma parse_fields_keys (lim : nat) (raw_text : str)
    (rules : list (string * list string)) :
  forall (parsed_data d : dict) (k : string),
    parse_fields lim rules raw_text parsed_data = Return d ->
    is_Some (d !! k) <-> is_Some (parsed_data !! k) \/ k ∈ map fst rules.
Proof.
  induction rules as [|[f ps] rules IH]; intros d0 d k; simpl.
  - intros [= ->]. rewrite elem_of_nil. tauto.
  - destruct (first_match lim f ps raw_text) as [found|]; [|discriminate].
    simpl. intros H. rewrite elem_of_cons.
    assert (Hins : forall v : str,
               is_Some (<[f := v]> d0 !! k) <-> is_Some (d0 !! k) \/ k = f).
    { intros v. destruct (decide (f = k)) as [->|Hne].
      - rewrite lookup_insert_eq. split; [auto | eauto].
      - rewrite lookup_insert_ne by exact Hne. split; [auto|].
        intros [?|?]; [assumption | congruence]. }
    destruct found; rewrite (IH _ _ _ H), Hins; tauto.
Qed.

Lemma parse_text_keys_holds (lim : nat) (raw_text : str) (d : dict) :
  parse_text lim raw_text = Return (Some d) ->
  (forall k, is_Some (d !! k) <-> k ∈ map fst PARSING_RULES) /\
  d !! "Error Type" = None /\ d !! "Notes" = None /\ d !! "Timestamp" = None.
Proof.
  intros H.
  assert (Hk : forall k, is_Some (d !! k) <-> k ∈ map fst PARSING_RULES).
  { intros k. unfold parse_text in H.
    destruct (_ || _); [discriminate|].
    destruct (parse_fields lim PARSING_RULES raw_text ∅) as [d'|] eqn:Hd;
      [|discriminate].
    injection H as ->. rewrite (parse_fields_keys _ _ _ _ _ k Hd).
    rewrite lookup_empty. split; [intros [[? ?]|?]; [discriminate|assumption] | auto]. }
  split; [exact Hk|].
  assert (Hnone : forall k, k ∉ map fst PARSING_RULES -> d !! k = None).
  { intros k Hn. destruct (d !! k) eqn:E; [|reflexivity].
    exfalso. apply Hn, Hk. eauto. }
  repeat split; apply Hnone; apply (bool_decide_unpack _); vm_compute; exact I.
Qed.

(** The record of [parse_text] has the keys of the rule table and no
    other: [Error Type], [Notes] and [Timestamp] are not in it. *)
Theorem parse_text_keys (lim : nat) (raw_text : str) (d : dict) :
  parse_text lim raw_text = Return (Some d) ->
  (forall k, is_Some (d !! k) <-> k ∈ map fst PARSING_RULES) /\
  d !! "Error Type" = None /\ d !! "Notes" = None /\ d !! "Timestamp" = None.
Proof. apply parse_text_keys_holds. Qed.

(** a closed equation between large values, by evaluation in the kernel *)
Ltac by_vm :=
  match goal with
  | |- _ = ?b => vm_cast_no_check (@eq_refl _ b)
  end.

Lemma parse_text_keys_witness :
  (forall k, is_Some (incorrect_record !! k) <-> k ∈ map fst PARSING_RULES) /\
  incorrect_record !! "Error Type" = None /\
  incorrect_record !! "Notes" = None /\
  incorrect_record !! "Timestamp" = None.
Proof.
  apply (parse_text_keys 4300 (py "INCORRECT") incorrect_record). by_vm.
Defined.

(** ** Entries carry no outer whitespace *)

Lemma isspace_upper (c : ascii) : Char.isspace (Char.upper c) = Char.isspace c.
Proof. destruct c as [[] [] [] [] [] [] [] []]; reflexivity. Qed.

Lemma isspace_lower (c : ascii) : Char.isspace (Char.lower c) = Char.isspace c.
Proof. destruct c as [[] [] [] [] [] [] [] []]; reflexivity. Qed.

Lemma lstrip_length (s : str) : (length (lstrip s) <= length s)%nat.
Proof.
  induction s as [|c t IH]; simpl; [lia|].
  destruct (Char.isspace c); simpl; lia.
Qed.

Lemma lstrip_fix (s : str) :
  lstrip s = s <->
  match s with
  | [] => True
  | c :: _ => Char.isspace c = false
  end.
Proof.
  destruct s as [|c t]; [tauto|]. split.
  - simpl. destruct (Char.isspace c); [|reflexivity].
    intros H. pose proof (lstrip_length t) as Hl. rewrite H in Hl.
    simpl in Hl. lia.
  - apply (lstrip_nonspace_head (c :: t)).
Qed.

Lemma last_cons (c d : ascii) (u : str) : List.last (d :: u) c = List.last u d.
Proof.
  revert c d. induction u as [|e u IH]; intros c d; [reflexivity|].
  change (List.last (d :: e :: u) c) with (List.last (e :: u) c).
  rewrite !IH. reflexivity.
Qed.

Lemma rstrip_fix (s : str) :
  rstrip s = s <->
  match s with
  | [] => True
  | c :: t => Char.isspace (List.last t c) = false
  end.
Proof.
  induction s as [|c t IH]; [tauto|].
  destruct t as [|d u].
  - simpl. destruct (Char.isspace c); split; congruence.
  - rewrite last_cons.
    change (rstrip (c :: d :: u)) with
      (match rstrip (d :: u) with
       | [] => if Char.isspace c then [] else [c]
       | t' => c :: t'
       end).
    rewrite <- IH. destruct (rstrip (d :: u)) as [|a t'] eqn:Hr.
    + split; [|discriminate]. destruct (Char.isspace c); discriminate.
    + split; congruence.
Qed.

Lemma lstrip_str_strip (s : str) : lstrip (str_strip s) = str_strip s.
Proof.
  unfold str_strip. apply lstrip_nonspace_head.
  destruct (lstrip s) as [|c t] eqn:Hs; [exact I|].
  pose proof (lstrip_head _ _ _ Hs) as Hc.
  rewrite (rstrip_cons_nonspace _ _ Hc). exact Hc.
Qed.

Lemma trimmed_iff (s : str) :
  trimmed s <->
  match s with
  | [] => True
  | c :: t => Char.isspace c = false /\ Char.isspace (List.last t c) = false
  end.
Proof.
  unfold trimmed. split.
  - intros H.
    assert (Hl : lstrip s = s) by (rewrite <- H; apply lstrip_str_strip).
    assert (Hr : rstrip s = s).
    { rewrite <- H at 1. unfold str_strip. rewrite rstrip_idempotent. exact H. }
    apply lstrip_fix in Hl. apply rstrip_fix in Hr.
    destruct s; [exact I | auto].
  - intros H. unfold str_strip.
    assert (Hl : lstrip s = s) by (apply lstrip_fix; destruct s; tauto).
    rewrite Hl. apply rstrip_fix. destruct s; tauto.
Qed.

Lemma trimmed_str_strip (s : str) : trimmed (str_strip s).
Proof. apply str_strip_idempotent. Qed.

Lemma last_map_lower (t : str) (c : ascii) :
  Char.isspace (List.last (map Char.lower t) (Char.upper c))
  = Char.isspace (List.last t c).
Proof.
  destruct t as [|d u]; [apply isspace_upper|].
  simpl map. rewrite !last_cons. clear c.
  revert d. induction u as [|e u IH]; intros d; [apply isspace_lower|].
  simpl map. rewrite !last_cons. apply IH.
Qed.

Lemma trimmed_capitalize (s : str) : trimmed s -> trimmed (str_capitalize s).
Proof.
  intros H. apply trimmed_iff in H. apply trimmed_iff.
  destruct s as [|c t]; [exact I|].
  change (Char.isspace (Char.upper c) = false /\
          Char.isspace (List.last (map Char.lower t) (Char.upper c)) = false).
  rewrite isspace_upper, last_map_lower. exact H.
Qed.

Lemma trimmed_ends (c e : ascii) (mid : str) :
  Char.isspace c = false -> Char.isspace e = false ->
  trimmed (c :: mid ++ [e]).
Proof.
  intros Hc He. apply trimmed_iff. split; [exact Hc|].
  rewrite last_last. exact He.
Qed.

Lemma format_head (n : Z) :
  0 <= n <= 999 ->
  exists c t, PyInt.format n = c :: t /\ Char.isspace c = false.
Proof.
  intros Hn.
  assert (H : forallb
                (fun k : nat =>
                   match PyInt.format (Z.of_nat k) with
                   | c :: _ => negb (Char.isspace c)
                   | [] => false
                   end) (seq 0 1000) = true) by (vm_compute; reflexivity).
  rewrite forallb_forall in H.
  specialize (H (Z.to_nat n) ltac:(apply in_seq; lia)).
  rewrite Z2Nat.id in H by lia.
  destruct (PyInt.format n) as [|c t]; [discriminate|].
  exists c, t. split; [reflexivity|]. apply negb_true_iff, H.
Qed.

Lemma trimmed_render_time (minutes seconds : Z) :
  0 <= minutes <= 999 -> 0 <= seconds <= 59 ->
  trimmed (render_time minutes seconds).
Proof.
  intros Hm Hs. unfold render_time.
  change (py " secs") with (py " sec" ++ ["s"%char]).
  destruct (minutes =? 0).
  - destruct (format_head seconds ltac:(lia)) as (c & t & -> & Hc).
    rewrite app_assoc. apply (trimmed_ends c "s" (t ++ py " sec") Hc).
    reflexivity.
  - destruct (format_head minutes ltac:(lia)) as (c & t & -> & Hc).
    rewrite !app_assoc.
    apply (trimmed_ends c "s"
             (((t ++ py " mins ") ++ PyInt.format seconds) ++ py " sec") Hc).
    reflexivity.
Qed.

Lemma trimmed_convert_time (lim : nat) (value : str) :
  trimmed value -> trimmed (convert_time lim value).
Proof.
  intros Ht. unfold convert_time.
  destruct (str_contains (py "sec") (str_lower value)); [exact Ht|].
  destruct (str_contains (py ":") value); [|exact Ht].
  destruct (str_split ":" value) as [|p0 [|p1 [|p2 parts]]]; try exact Ht.
  destruct (int lim p0) as [minutes|]; [|exact Ht].
  destruct (int lim p1) as [seconds|]; [|exact Ht].
  destruct ((0 <=? minutes) && (minutes <=? 999)
            && (0 <=? seconds) && (seconds <=? 59)) eqn:Hr; [|exact Ht].
  rewrite !andb_true_iff, !Z.leb_le in Hr.
  apply (trimmed_render_time minutes seconds); lia.
Qed.

Lemma trimmed_normalize (lim : nat) (field : string) (value : str) :
  trimmed value -> trimmed (normalize lim field value).
Proof.
  intros Ht. unfold normalize.
  destruct (String.eqb field "Result"); [apply trimmed_capitalize, Ht|].
  destruct (String.eqb field "Time Spent"); [apply trimmed_convert_time, Ht|].
  exact Ht.
Qed.

Lemma first_match_value (lim : nat) (field : string) (patterns : list string)
    (raw_text : str) (v : str) :
  first_match lim field patterns raw_text = Return (Some v) ->
  exists g, v = normalize lim field (str_strip g).
Proof.
  induction patterns as [|p patterns IH]; simpl; [discriminate|].
  destruct (re_search p raw_text flags) as [[m|]|]; simpl;
    [|exact IH|discriminate].
  unfold match_value. destruct (groups m) as [|[g|] gs]; simpl;
    [intros [= <-]; eauto | intros [= <-]; eauto | discriminate].
Qed.

(** an invariant of the values of the record, kept by the outer loop *)
Lemma parse_fields_values (lim : nat) (raw_text : str) (P : str -> Prop)
    (rules : list (string * list string)) :
  P [] ->
  (forall field patterns v,
     first_match lim field patterns raw_text = Return (Some v) -> P v) ->
  forall (parsed_data d : dict),
    (forall k v, parsed_data !! k = Some v -> P v) ->
    parse_fields lim rules raw_text parsed_data = Return d ->
    forall k v, d !! k = Some v -> P v.
Proof.
  intros Hnil Hfm. induction rules as [|[f ps] rules IH]; intros d0 d H0; simpl.
  - intros [= ->]. exact H0.
  - destruct (first_match lim f ps raw_text) as [found|] eqn:Hf; [|discriminate].
    simpl.
    assert (Hins : forall val, P val ->
               forall k v, <[f := val]> d0 !! k = Some v -> P v).
    { intros val Hval k v. destruct (decide (f = k)) as [->|Hne].
      - rewrite lookup_insert_eq. intros [= <-]. exact Hval.
      - rewrite lookup_insert_ne by exact Hne. apply H0. }
    destruct found as [val|]; apply IH; apply Hins;
      [eapply Hfm, Hf | exact Hnil].
Qed.

Lemma parse_text_entries_trimmed_holds (lim : nat) (raw_text : str) (d : dict)
    (k : string) (v : str) :
  parse_text lim raw_text = Return (Some d) ->
  d !! k = Some v ->
  str_strip v = v.
Proof.
  unfold parse_text. destruct (_ || _); [discriminate|].
  destruct (parse_fields lim PARSING_RULES raw_text ∅) as [d'|] eqn:Hd;
    [|discriminate].
  intros [= ->]. revert k v.
  apply (parse_fields_values lim raw_text trimmed PARSING_RULES) with (parsed_data := ∅).
  - reflexivity.
  - intros field patterns v (g & ->)%first_match_value.
    apply trimmed_normalize, trimmed_str_strip.
  - intros k v. rewrite lookup_empty. discriminate.
  - exact Hd.
Qed.

(** Every entry of the record of [parse_text] is free of leading and
    trailing whitespace. *)
Theorem parse_text_entries_trimmed (lim : nat) (raw_text : str) (d : dict)
    (k : string) (v : str) :
  parse_text lim raw_text = Return (Some d) ->
  d !! k = Some v ->
  str_strip v = v.
Proof. apply parse_text_entries_trimmed_holds. Qed.

Lemma parse_text_entries_trimmed_witness :
  str_strip (py "Incorrect") = py "Incorrect".
Proof.
  apply (parse_text_entries_trimmed 4300 (py "INCORRECT") incorrect_record
           "Result" (py "Incorrect")).
  - by_vm.
  - by_eval.
Defined.

(** ** Normalization is stable *)







(** ** Extraction followed by validation *)

(** A record of [parse_text] passes [is_valid_data] exactly when its
    Category and its Result are not the empty string. *)
Theorem parsed_record_valid_iff (lim : nat) (raw_text : str) (d : dict) :
  parse_text lim raw_text = Return (Some d) ->
  is_valid_data (Some d) = Return true <->
  d !! "Category" <> Some [] /\ d !! "Result" <> Some [].
Proof.
  intros Hp. rewrite is_valid_data_spec.
  destruct (parse_text_keys_holds lim raw_text d Hp) as (Hk & _).
  assert (Hc : is_Some (d !! "Category"))
    by (apply Hk; apply (bool_decide_unpack _); vm_compute; exact I).
  assert (Hr : is_Some (d !! "Result"))
    by (apply Hk; apply (bool_decide_unpack _); vm_compute; exact I).
  destruct Hc as (c & Hc), Hr as (r & Hr). rewrite Hc, Hr. simpl.
  rewrite (parse_text_entries_trimmed_holds lim raw_text d _ c Hp Hc).
  rewrite (parse_text_entries_trimmed_holds lim raw_text d _ r Hp Hr).
  destruct c, r; simpl; split; try congruence; try tauto.
  - intros _. split; congruence.
Qed.

Lemma parsed_record_valid_iff_witness :
  is_valid_data (Some incorrect_record) = Return true <->
  incorrect_record !! "Category" <> Some [] /\
  incorrect_record !! "Result" <> Some [].
Proof.
  apply (parsed_record_valid_iff 4300 (py "INCORRECT") incorrect_record).
  by_vm.
Defined.

(** * Further properties of the sanitizer *)

Lemma tidy_iff (s : str) :
  forall b,
    tidy b s = true <->
    only_spaces s /\ no_double_space s /\
    match s with
    | c :: _ => b = true -> Char.isspace c = false
    | [] => True
    end.
Proof.
  unfold only_spaces, no_double_space.
  induction s as [|c t IH]; intros b.
  - simpl. split; [|reflexivity]. intros _. split; [constructor|].
    split; [|exact I]. intros [|a pre] post; discriminate.
  - simpl tidy. destruct (Char.isspace c) eqn:Hc.
    + rewrite !andb_true_iff, char_eqb_eq, negb_true_iff, (IH true). split.
      * intros [[-> ->] (Hf & Hd & Hh)]. split; [constructor; auto|].
        split; [|discriminate].
        intros [|a pre] post.
        -- intros [= ->]. specialize (Hh eq_refl). discriminate.
        -- intros [= _ E]. exact (Hd _ _ E).
      * intros (Hf & Hd & Hh). apply Forall_cons in Hf as [Hsp Hf].
        specialize (Hsp Hc). subst c.
        assert (b = false) as ->
          by (destruct b; [specialize (Hh eq_refl); discriminate | reflexivity]).
        split; [auto|]. split; [exact Hf|]. split.
        -- intros pre post E. apply (Hd (" "%char :: pre) post).
           rewrite E. reflexivity.
        -- destruct t as [|d u]; [exact I|]. intros _.
           destruct (Char.isspace d) eqn:Hd'; [|reflexivity].
           apply Forall_cons in Hf as [Hsd _]. specialize (Hsd Hd'). subst d.
           exfalso. exact (Hd [] u eq_refl).
    + rewrite (IH false). split.
      * intros (Hf & Hd & _). split; [constructor; [congruence | exact Hf]|].
        split; [|auto].
        intros [|a pre] post.
        -- intros [= -> _]. discriminate.
        -- intros [= _ E]. exact (Hd _ _ E).
      * intros (Hf & Hd & _). apply Forall_cons in Hf as [_ Hf].
        split; [exact Hf|]. split.
        -- intros pre post E. apply (Hd (c :: pre) post). rewrite E. reflexivity.
        -- destruct t; [exact I | discriminate].
Qed.

Lemma tidy_spec_sanitize (x : str) : tidy false (spec_sanitize x) = true.
Proof.
  unfold spec_sanitize, str_strip.
  apply tidy_rstrip, (tidy_lstrip _ false), tidy_collapse.
Qed.

Lemma clean_text_field_single_spaced_holds (x : str) :
  exists y,
    clean_text_field x = Return y /\
    only_spaces y /\ no_double_space y /\ trimmed y /\
    (ReParse.LF ∉ y) /\ (ReParse.CR ∉ y) /\ (ReParse.TAB ∉ y).
Proof.
  exists (spec_sanitize x). split; [apply clean_text_field_spec|].
  destruct (proj1 (tidy_iff _ false) (tidy_spec_sanitize x)) as (Hs & Hd & _).
  split; [exact Hs|]. split; [exact Hd|].
  split; [apply trimmed_str_strip|].
  unfold only_spaces in Hs. rewrite Forall_forall in Hs.
  repeat split; intros Hin; specialize (Hs _ Hin eq_refl); discriminate.
Qed.

(** The sanitized text has no whitespace but single spaces between
    visible characters: no line terminator, no tab, no doubled space,
    nothing at either end. *)
Theorem clean_text_field_single_spaced (x : str) :
  exists y,
    clean_text_field x = Return y /\
    only_spaces y /\ no_double_space y /\ trimmed y /\
    (ReParse.LF ∉ y) /\ (ReParse.CR ∉ y) /\ (ReParse.TAB ∉ y).
Proof. apply clean_text_field_single_spaced_holds. Qed.

Lemma visible_cons_space (c : ascii) (s : str) :
  Char.isspace c = true -> visible (c :: s) = visible s.
Proof.
  intros Hc. unfold visible. rewrite filter_cons_False; [reflexivity|].
  congruence.
Qed.

Lemma visible_cons_nonspace (c : ascii) (s : str) :
  Char.isspace c = false -> visible (c :: s) = c :: visible s.
Proof.
  intros Hc. unfold visible. rewrite filter_cons_True; [reflexivity|exact Hc].
Qed.

Lemma visible_sub_newlines (s : str) :
  visible (sub_newlines s) = visible s /\
  (length (sub_newlines s) <= length s)%nat.
Proof.
  induction s as [s IH] using (induction_ltof1 _ (@length ascii)).
  unfold ltof in IH.
  destruct s as [|c t]; [split; reflexivity|].
  cbn [sub_newlines].
  destruct (Char.eqb c ReParse.LF) eqn:Hlf.
  - apply char_eqb_eq in Hlf. subst c.
    destruct (IH t ltac:(simpl; lia)) as [Hv Hl].
    rewrite !visible_cons_space by reflexivity. simpl. split; [exact Hv | lia].
  - destruct t as [|d t']; [split; reflexivity|].
    destruct (Char.eqb c ReParse.CR && Char.eqb d ReParse.LF) eqn:Hcrlf.
    + apply andb_prop in Hcrlf as [Hc Hd].
      apply char_eqb_eq in Hc, Hd. subst c d.
      destruct (IH t' ltac:(simpl; lia)) as [Hv Hl].
      rewrite !visible_cons_space by reflexivity. simpl. split; [exact Hv | lia].
    + destruct (IH (d :: t') ltac:(simpl; lia)) as [Hv Hl].
      split; [|simpl in *; lia].
      destruct (Char.isspace c) eqn:Hc.
      * rewrite !(visible_cons_space c) by exact Hc. exact Hv.
      * rewrite !(visible_cons_nonspace c) by exact Hc. rewrite Hv. reflexivity.
Qed.

Lemma visible_collapse (s : str) :
  forall b,
    visible (collapse b s) = visible s /\
    (length (collapse b s) <= length s)%nat.
Proof.
  induction s as [|c t IH]; intros b; [split; reflexivity|].
  simpl collapse. destruct (Char.isspace c) eqn:Hc.
  - rewrite (visible_cons_space c) by exact Hc.
    destruct (IH true) as [Hv Hl].
    destruct b; [split; [exact Hv | simpl; lia]|].
    rewrite visible_cons_space by reflexivity. split; [exact Hv | simpl; lia].
  - rewrite !(visible_cons_nonspace c) by exact Hc.
    destruct (IH false) as [Hv Hl]. rewrite Hv. split; [reflexivity | simpl; lia].
Qed.

Lemma visible_lstrip (s : str) :
  visible (lstrip s) = visible s /\ (length (lstrip s) <= length s)%nat.
Proof.
  split; [|apply lstrip_length].
  induction s as [|c t IH]; [reflexivity|]. simpl.
  destruct (Char.isspace c) eqn:Hc; [|reflexivity].
  rewrite (visible_cons_space c) by exact Hc. exact IH.
Qed.

Lemma visible_rstrip (s : str) :
  visible (rstrip s) = visible s /\ (length (rstrip s) <= length s)%nat.
Proof.
  induction s as [|c t IH]; [split; reflexivity|].
  destruct IH as [Hv Hl]. simpl rstrip.
  destruct (rstrip t) as [|a t'] eqn:Hr.
  - destruct (Char.isspace c) eqn:Hc.
    + rewrite (visible_cons_space c) by exact Hc. rewrite <- Hv.
      split; [reflexivity | simpl; lia].
    + rewrite !(visible_cons_nonspace c) by exact Hc. rewrite <- Hv.
      split; [reflexivity | simpl; lia].
  - split; [|simpl in *; lia].
    destruct (Char.isspace c) eqn:Hc.
    + rewrite !(visible_cons_space c) by exact Hc. exact Hv.
    + rewrite !(visible_cons_nonspace c) by exact Hc. rewrite Hv. reflexivity.
Qed.

Lemma clean_text_field_keeps_visible_holds (x : str) :
  exists y,
    clean_text_field x = Return y /\
    visible y = visible x /\
    (length y <= length x)%nat.
Proof.
  exists (spec_sanitize x). split; [apply clean_text_field_spec|].
  unfold spec_sanitize, str_strip.
  destruct (visible_rstrip (lstrip (collapse false (sub_newlines x)))) as [V1 L1].
  destruct (visible_lstrip (collapse false (sub_newlines x))) as [V2 L2].
  destruct (visible_collapse (sub_newlines x) false) as [V3 L3].
  destruct (visible_sub_newlines x) as [V4 L4].
  split; [congruence | lia].
Qed.

(** Sanitizing removes or rewrites whitespace only: the visible
    characters of the result are those of the text, in the same order,
    and the result is never longer than the text. *)
Theorem clean_text_field_keeps_visible (x : str) :
  exists y,
    clean_text_field x = Return y /\
    visible y = visible x /\
    (length y <= length x)%nat.
Proof. apply clean_text_field_keeps_visible_holds. Qed.

(** The texts that [clean_text_field] returns unchanged are exactly the
    sanitized ones. *)
Theorem clean_text_field_fixed_points (x : str) :
  clean_text_field x = Return x <->
  only_spaces x /\ no_double_space x /\ trimmed x.
Proof.
  rewrite clean_text_field_spec. split.
  - intros [= E].
    destruct (clean_text_field_single_spaced_holds x) as (y & Hy & Hs & Hd & Ht & _).
    rewrite clean_text_field_spec in Hy. injection Hy as <-.
    rewrite E in Hs, Hd, Ht. auto.
  - intros (Hs & Hd & Ht). f_equal.
    assert (Htidy : tidy false x = true).
    { apply tidy_iff. split; [exact Hs|]. split; [exact Hd|].
      destruct x; [exact I | discriminate]. }
    unfold spec_sanitize.
    rewrite (tidy_no_newline _ _ Htidy), (collapse_tidy _ _ Htidy). exact Ht.
Qed.

(** The sanitized text is empty exactly when the text is empty or
    whitespace only. *)
Theorem clean_text_field_empty_iff_blank (x : str) :
  clean_text_field x = Return [] <-> blank x = true.
Proof.
  destruct (clean_text_field_keeps_visible_holds x) as (y & Hy & Hv & _).
  assert (Hb : forall s, blank s = true <-> visible s = []).
  { induction s as [|c t IH]; [simpl; tauto|]. simpl blank.
    destruct (Char.isspace c) eqn:Hc.
    - rewrite (visible_cons_space c) by exact Hc. exact IH.
    - rewrite (visible_cons_nonspace c) by exact Hc. simpl.
      split; discriminate. }
  rewrite Hy. split.
  - intros [= ->]. apply Hb. rewrite <- Hv. reflexivity.
  - intros Hx. f_equal. apply Hb in Hx. rewrite Hx in Hv.
    apply Hb in Hv. apply str_strip_nil_iff in Hv.
    destruct (clean_text_field_single_spaced_holds x) as (y' & Hy' & _ & _ & Ht & _).
    rewrite Hy in Hy'. injection Hy' as <-.
    rewrite <- Ht. exact Hv.
Qed.

(** * The error type *)

Lemma replace_from_absent (old new : str) (s : str) :
  str_contains old s = false -> replace_from old new s 0 = s.
Proof.
  induction s as [|c t IH]; [reflexivity|].
  simpl. intros [H1 H2]%orb_false_elim.
  simpl in H1. rewrite H1, (IH H2). reflexivity.
Qed.

Lemma str_replace_absent (old new : str) (s : str) :
  old <> [] -> str_contains old s = false -> str_replace old new s = s.
Proof.
  intros Hne Hc. unfold str_replace.
  destruct old; [congruence | apply replace_from_absent, Hc].
Qed.

Lemma ascii_not_contains (old s : str) (b : ascii) (rest : str) :
  old = b :: rest -> (128 <= Char.code b)%N -> is_ascii s ->
  str_contains old s = false.
Proof.
  intros -> Hb Hs. destruct (str_contains (b :: rest) s) eqn:Hc; [|reflexivity].
  apply str_contains_iff in Hc as (pre & post & ->).
  unfold is_ascii in Hs. rewrite Forall_app in Hs. destruct Hs as [_ Hs].
  apply Forall_cons in Hs as [Hlt _]. lia.
Qed.

(** Each of the four error types of the buttons is stored as its label,
    without the icon. *)
Theorem clean_error_type_of_buttons :
  map clean_error_type_for_csv ERROR_TYPES
  = [py "Misread the question"; py "Wrong formula/concept";
     py "Calculation error"; py "Uncertain"].
Proof. by_eval. Qed.

(** An error type in which none of the four icon prefixes occurs is
    returned as it is; so is every ASCII text. *)
Theorem clean_error_type_without_icon (error_type : str) :
  (Forall (fun icon => str_contains icon error_type = false) icon_prefixes ->
   clean_error_type_for_csv error_type = error_type) /\
  (is_ascii error_type -> clean_error_type_for_csv error_type = error_type).
Proof.
  assert (H : Forall (fun icon => str_contains icon error_type = false)
                icon_prefixes ->
              clean_error_type_for_csv error_type = error_type).
  { intros Hf. unfold icon_prefixes in Hf.
    apply Forall_cons in Hf as [H1 Hf]. apply Forall_cons in Hf as [H2 Hf].
    apply Forall_cons in Hf as [H3 Hf]. apply Forall_cons in Hf as [H4 _].
    unfold clean_error_type_for_csv.
    destruct (negb (str_truthy error_type)); [reflexivity|].
    rewrite (str_replace_absent (py "❌ ") _ _ ltac:(discriminate) H1).
    rewrite (str_replace_absent (py "🔄 ") _ _ ltac:(discriminate) H2).
    rewrite (str_replace_absent (py "⚠️ ") _ _ ltac:(discriminate) H3).
    apply (str_replace_absent (py "❓ ") _ _ ltac:(discriminate) H4). }
  split; [exact H|].
  intros Ha. apply H. unfold icon_prefixes.
  repeat constructor;
    eapply ascii_not_contains; try exact Ha; try reflexivity;
    vm_compute; discriminate.
Qed.

Lemma clean_error_type_without_icon_witness :
  clean_error_type_for_csv (py "Careless mistake") = py "Careless mistake".
Proof.
  apply (proj2 (clean_error_type_without_icon (py "Careless mistake"))).
  unfold is_ascii. repeat constructor.
Defined.

(** The icon prefixes are removed in one pass each, in a fixed order:
    the result can still carry an icon prefix, and cleaning it again
    changes it. *)
Theorem clean_error_type_is_single_pass :
  exists error_type,
    str_contains (py "❌ ") (clean_error_type_for_csv error_type) = true /\
    clean_error_type_for_csv (clean_error_type_for_csv error_type)
    <> clean_error_type_for_csv error_type.
Proof.
  exists (py "❌❓  x"). split; [by_eval|]. vm_compute. discriminate.
Qed.

(** * Saving a record *)

Lemma dict_get_insert_ne (d : dict) (k k' : string) (v default : str) :
  k <> k' -> dict_get (<[k := v]> d) k' default = dict_get d k' default.
Proof. intros Hne. unfold dict_get. rewrite lookup_insert_ne by exact Hne. reflexivity. Qed.

Lemma dict_get_insert_eq (d : dict) (k : string) (v default : str) :
  dict_get (<[k := v]> d) k default = v.
Proof. unfold dict_get. rewrite lookup_insert_eq. reflexivity. Qed.

(** the dict [ordered_data] of [save_to_csv] *)
Lemma save_to_csv_spec {Row : Type} (now : str) (data : dict)
    (file : csv_file Row) :
  save_to_csv now data file
  = Return
      (<["Timestamp" := now]> data,
       [("Category", spec_sanitize (dict_get data "Category" []));
        ("Question Number", spec_sanitize (dict_get data "Question Number" []));
        ("Result", spec_sanitize (dict_get data "Result" []));
        ("Question Text", spec_sanitize (dict_get data "Question Text" []));
        ("Error Type", spec_sanitize (dict_get data "Error Type" []));
        ("Confidence Level", spec_sanitize (dict_get data "Confidence Level" []));
        ("Time Spent", spec_sanitize (dict_get data "Time Spent" []));
        ("Difficulty Level", spec_sanitize (dict_get data "Difficulty Level" []));
        ("Notes", spec_sanitize (dict_get data "Notes" []));
        ("Timestamp", now)],
       Some (writes_of file
             ++ [Append
                   [("Category", spec_sanitize (dict_get data "Category" []));
                    ("Question Number", spec_sanitize (dict_get data "Question Number" []));
                    ("Result", spec_sanitize (dict_get data "Result" []));
                    ("Question Text", spec_sanitize (dict_get data "Question Text" []));
                    ("Error Type", spec_sanitize (dict_get data "Error Type" []));
                    ("Confidence Level", spec_sanitize (dict_get data "Confidence Level" []));
                    ("Time Spent", spec_sanitize (dict_get data "Time Spent" []));
                    ("Difficulty Level", spec_sanitize (dict_get data "Difficulty Level" []));
                    ("Notes", spec_sanitize (dict_get data "Notes" []));
                    ("Timestamp", now)]
                   (is_new file)])).
Proof.
  unfold save_to_csv. rewrite !clean_text_field_spec. cbn [bind].
  rewrite dict_get_insert_eq, !dict_get_insert_ne by discriminate.
  destruct file; reflexivity.
Qed.

Lemma save_to_csv_row_holds {Row : Type} (now : str) (data : dict)
    (file : csv_file Row) :
  exists row,
    save_to_csv now data file
    = Return (<["Timestamp" := now]> data, row,
              Some (writes_of file ++ [Append row (is_new file)])) /\
    map fst row = REQUIRED_COLUMNS /\
    (forall col cell,
       (col, cell) ∈ row -> col <> "Timestamp" ->
       clean_text_field (dict_get data col []) = Return cell /\
       (ReParse.LF ∉ cell) /\ (ReParse.CR ∉ cell)) /\
    (forall cell, ("Timestamp", cell) ∈ row -> cell = now).
Proof.
  eexists. split; [apply save_to_csv_spec|]. split; [reflexivity|].
  assert (Hclean : forall x,
             clean_text_field x = Return (spec_sanitize x) /\
             (ReParse.LF ∉ spec_sanitize x) /\ (ReParse.CR ∉ spec_sanitize x)).
  { intros x.
    destruct (clean_text_field_single_spaced_holds x)
      as (y & Hy & _ & _ & _ & Hlf & Hcr & _).
    rewrite clean_text_field_spec in Hy. injection Hy as <-.
    split; [apply clean_text_field_spec | auto]. }
  split.
  - intros col cell Hin Hne.
    repeat (apply elem_of_cons in Hin as [[= -> ->]|Hin]; [apply Hclean|]).
    apply elem_of_cons in Hin as [[= -> ->]|Hin]; [congruence|].
    inversion Hin.
  - intros cell Hin.
    repeat (apply elem_of_cons in Hin as [Heq|Hin];
            [first [discriminate Heq | injection Heq as ->; reflexivity]|]).
    inversion Hin.
Qed.

(** [save_to_csv] never raises.  The row it hands to pandas has the
    columns of [REQUIRED_COLUMNS] in their order; every cell but the
    timestamp is the sanitized entry of the record ([""] for a missing
    key) and holds no line terminator; the timestamp is written as it is,
    also into the record that was passed in.  The row is appended after
    the earlier writes, with the header exactly when the file is new. *)
Theorem save_to_csv_row {Row : Type} (now : str) (data : dict)
    (file : csv_file Row) :
  exists row,
    save_to_csv now data file
    = Return (<["Timestamp" := now]> data, row,
              Some (writes_of file ++ [Append row (is_new file)])) /\
    map fst row = REQUIRED_COLUMNS /\
    (forall col cell,
       (col, cell) ∈ row -> col <> "Timestamp" ->
       clean_text_field (dict_get data col []) = Return cell /\
       (ReParse.LF ∉ cell) /\ (ReParse.CR ∉ cell)) /\
    (forall cell, ("Timestamp", cell) ∈ row -> cell = now).
Proof. apply save_to_csv_row_holds. Qed.

(** * Saving from the session *)

(** Without a parsed record (none, or an empty one) or without an error
    type, [auto_save_and_clear] does nothing: the session and the file
    stay as they are and the script is not rerun. *)
Theorem auto_save_and_clear_noop {Row : Type} (now error_type notes : str)
    (s : session) (file : csv_file Row) :
  parsed_data_truthy s = false \/ error_type = [] ->
  auto_save_and_clear now error_type notes s file = Return (s, file, false).
Proof.
  unfold auto_save_and_clear, parsed_data_truthy.
  destruct (parsed_data s) as [pd|]; [|reflexivity].
  intros [-> | ->]; [reflexivity|]. rewrite andb_false_r. reflexivity.
Qed.

Lemma auto_save_and_clear_noop_witness :
  auto_save_and_clear (Row := unit) (py "2024-05-01 10:00:00") (py "")
    (py "a note") pending_session None
  = Return (pending_session, None, false).
Proof.
  apply (auto_save_and_clear_noop (Row := unit)). right. reflexivity.
Defined.

Lemma auto_save_and_clear_spec {Row : Type} (now error_type notes : str)
    (s : session) (file : csv_file Row) (pd : dict) :
  parsed_data s = Some pd -> pd <> ∅ -> error_type <> [] ->
  exists data' row file',
    save_to_csv now
      (<["Notes" := notes]>
         (<["Error Type" := clean_error_type_for_csv error_type]> pd)) file
    = Return (data', row, file') /\
    auto_save_and_clear now error_type notes s file
    = Return
        (Session None true ((text_input_key s + 1) mod 1000)
           ((notes_input_key s + 1) mod 1000) (files_processed s)
           (selected_for_deletion s) (show_delete_mode s),
         file', true).
Proof.
  intros Hpd Hne He. unfold auto_save_and_clear. rewrite Hpd.
  assert (dict_truthy pd = true) as ->.
  { unfold dict_truthy. rewrite bool_decide_eq_false_2 by exact Hne. reflexivity. }
  assert (str_truthy error_type = true) as ->
    by (destruct error_type; [congruence | reflexivity]).
  cbn [andb]. rewrite save_to_csv_spec. cbn [bind]. eauto.
Qed.

(** When a record is pending and an error type is given,
    [auto_save_and_clear] appends exactly one row to the log, clears the
    pending record, raises the saved flag, advances both widget keys by
    one modulo 1000 (so they stay in [0,999]), leaves the rest of the
    session alone and reruns the script. *)
Theorem auto_save_and_clear_session {Row : Type} (now error_type notes : str)
    (s : session) (file : csv_file Row) (pd : dict) :
  parsed_data s = Some pd -> pd <> ∅ -> error_type <> [] ->
  exists s' row,
    auto_save_and_clear now error_type notes s file
    = Return (s', Some (writes_of file ++ [Append row (is_new file)]), true) /\
    parsed_data s' = None /\
    saved_successfully s' = true /\
    text_input_key s' = (text_input_key s + 1) mod 1000 /\
    notes_input_key s' = (notes_input_key s + 1) mod 1000 /\
    0 <= text_input_key s' < 1000 /\
    0 <= notes_input_key s' < 1000 /\
    files_processed s' = files_processed s /\
    selected_for_deletion s' = selected_for_deletion s /\
    show_delete_mode s' = show_delete_mode s.
Proof.
  intros Hpd Hne He.
  destruct (auto_save_and_clear_spec now error_type notes s file pd Hpd Hne He)
    as (data' & row & file' & Hsave & ->).
  rewrite save_to_csv_spec in Hsave. injection Hsave as _ <- <-.
  eexists _, _. split; [reflexivity|]. cbn.
  repeat split; try reflexivity; apply Z.mod_pos_bound; lia.
Qed.

Lemma auto_save_and_clear_session_witness :
  exists s' row,
    auto_save_and_clear (Row := unit) (py "2024-05-01 10:00:00")
      (py "❓ Uncertain") (py "a note") pending_session None
    = Return (s', Some ([] ++ [Append row true]), true) /\
    parsed_data s' = None /\
    saved_successfully s' = true /\
    text_input_key s' = (999 + 1) mod 1000 /\
    notes_input_key s' = (7 + 1) mod 1000 /\
    0 <= text_input_key s' < 1000 /\
    0 <= notes_input_key s' < 1000 /\
    files_processed s' = false /\
    selected_for_deletion s' = [] /\
    show_delete_mode s' = false.
Proof.
  apply (auto_save_and_clear_session (Row := unit) (py "2024-05-01 10:00:00")
           (py "❓ Uncertain") (py "a note") pending_session None
           incorrect_record).
  - reflexivity.
  - intros E. apply (f_equal (fun m : dict => m !! "Result")) in E.
    vm_compute in E. discriminate.
  - discriminate.
Defined.

(** The row that [auto_save_and_clear] appends: the error type without
    its icon and the notes, both sanitized; every other column but the
    timestamp is the sanitized entry of the pending record ([""] when
    the record has no such key); the timestamp is the time of the save. *)
Theorem auto_save_and_clear_row {Row : Type} (now error_type notes : str)
    (s : session) (file : csv_file Row) (pd : dict) :
  parsed_data s = Some pd -> pd <> ∅ -> error_type <> [] ->
  exists s' row,
    auto_save_and_clear now error_type notes s file
    = Return (s', Some (writes_of file ++ [Append row (is_new file)]), true) /\
    map fst row = REQUIRED_COLUMNS /\
    (forall cell, ("Error Type", cell) ∈ row ->
       clean_text_field (clean_error_type_for_csv error_type) = Return cell) /\
    (forall cell, ("Notes", cell) ∈ row ->
       clean_text_field notes = Return cell) /\
    (forall cell, ("Timestamp", cell) ∈ row -> cell = now) /\
    (forall col cell,
       (col, cell) ∈ row ->
       col <> "Error Type" -> col <> "Notes" -> col <> "Timestamp" ->
       clean_text_field (dict_get pd col []) = Return cell).
Proof.
  intros Hpd Hne He.
  destruct (auto_save_and_clear_spec now error_type notes s file pd Hpd Hne He)
    as (data' & row & file' & Hsave & ->).
  destruct (save_to_csv_row_holds now
              (<["Notes" := notes]>
                 (<["Error Type" := clean_error_type_for_csv error_type]> pd))
              file) as (row' & Hrow & Hcols & Hcells & Hts).
  rewrite Hrow in Hsave. injection Hsave as _ <- <-.
  eexists _, row'. split; [reflexivity|]. split; [exact Hcols|].
  split; [|split; [|split; [exact Hts|]]].
  - intros cell Hin. destruct (Hcells _ _ Hin ltac:(discriminate)) as [Hc _].
    rewrite dict_get_insert_ne, dict_get_insert_eq in Hc by discriminate.
    exact Hc.
  - intros cell Hin. destruct (Hcells _ _ Hin ltac:(discriminate)) as [Hc _].
    rewrite dict_get_insert_eq in Hc. exact Hc.
  - intros col cell Hin H1 H2 H3. destruct (Hcells _ _ Hin H3) as [Hc _].
    rewrite !dict_get_insert_ne in Hc by congruence. exact Hc.
Qed.

Lemma auto_save_and_clear_row_witness :
  exists s' row,
    auto_save_and_clear (Row := unit) (py "2024-05-01 10:00:00")
      (py "❓ Uncertain") (py "a note") pending_session None
    = Return (s', Some ([] ++ [Append row true]), true) /\
    map fst row = REQUIRED_COLUMNS /\
    (forall cell, ("Error Type", cell) ∈ row ->
       clean_text_field (clean_error_type_for_csv (py "❓ Uncertain"))
       = Return cell) /\
    (forall cell, ("Notes", cell) ∈ row ->
       clean_text_field (py "a note") = Return cell) /\
    (forall cell, ("Timestamp", cell) ∈ row ->
       cell = py "2024-05-01 10:00:00") /\
    (forall col cell,
       (col, cell) ∈ row ->
       col <> "Error Type" -> col <> "Notes" -> col <> "Timestamp" ->
       clean_text_field (dict_get incorrect_record col []) = Return cell).
Proof.
  apply (auto_save_and_clear_row (Row := unit) (py "2024-05-01 10:00:00")
           (py "❓ Uncertain") (py "a note") pending_session None
           incorrect_record).
  - reflexivity.
  - intros E. apply (f_equal (fun m : dict => m !! "Result")) in E.
    vm_compute in E. discriminate.
  - discriminate.
Defined.

(** * Deleting rows of the log *)

Lemma drop_rows_spec {Row : Type} (labels : list Z) (df : list Row) :
  forall k : nat,
    drop_rows df (Z.of_nat k) labels
    = (filter (fun ir : nat * Row => Z.of_nat ir.1 ∉ labels)
         (zip (seq k (length df)) df)).*2.
Proof.
  induction df as [|r rest IH]; intros k; [reflexivity|].
  cbn [drop_rows length seq zip zip_with].
  replace (Z.of_nat k + 1) with (Z.of_nat (S k)) by lia. rewrite IH.
  case_bool_decide as Hin.
  - rewrite filter_cons_False by (simpl; tauto). reflexivity.
  - rewrite filter_cons_True by exact Hin. reflexivity.
Qed.

Lemma df_drop_Some {Row : Type} (df : list Row) (labels : list Z) :
  Forall (row_label (length df)) labels ->
  df_drop df labels = Some (drop_rows df 0 labels).
Proof.
  intros Hf. unfold df_drop.
  assert (forallb (fun l => (0 <=? l) && (l <? Z.of_nat (length df))) labels
          = true) as ->; [|reflexivity].
  apply forallb_forall. intros l Hl%list_elem_of_In.
  rewrite Forall_forall in Hf. specialize (Hf l Hl). unfold row_label in Hf.
  apply andb_true_iff. split; [apply Z.leb_le | apply Z.ltb_lt]; lia.
Qed.

Lemma df_drop_None {Row : Type} (df : list Row) (labels : list Z) (l : Z) :
  l ∈ labels -> ~ row_label (length df) l -> df_drop df labels = None.
Proof.
  intros Hl Hn. unfold df_drop.
  destruct (forallb _ labels) eqn:Hf; [|reflexivity].
  rewrite forallb_forall in Hf. apply list_elem_of_In in Hl.
  specialize (Hf l Hl). apply andb_true_iff in Hf as [H1 H2].
  apply Z.leb_le in H1. apply Z.ltb_lt in H2. exfalso. apply Hn. split; lia.
Qed.

Lemma filter_zip_fst_length {A B : Type} (Q : A -> Prop)
    `{forall x, Decision (Q x)} (l : list A) :
  forall k : list B,
    length l = length k ->
    length (filter (fun p : A * B => Q p.1) (zip l k)) = length (filter Q l).
Proof.
  induction l as [|a l IH]; intros [|b k] Hl; try discriminate; [reflexivity|].
  cbn [zip zip_with]. injection Hl as Hl. specialize (IH k Hl).
  destruct (decide (Q a)) as [Hq|Hq].
  - rewrite !filter_cons_True by exact Hq. simpl. rewrite IH. reflexivity.
  - rewrite !filter_cons_False by exact Hq. exact IH.
Qed.

Lemma selected_labels_count (n : nat) (labels : list Z) :
  Forall (row_label n) labels ->
  length (filter (fun i : nat => Z.of_nat i ∈ labels) (seq 0 n))
  = length (remove_dups labels).
Proof.
  intros Hf. rewrite <- (length_fmap Z.of_nat).
  apply Permutation_length, NoDup_Permutation.
  - apply (NoDup_fmap_2 Z.of_nat), NoDup_filter, NoDup_seq.
  - apply NoDup_remove_dups.
  - intros x. rewrite elem_of_remove_dups, list_elem_of_fmap. split.
    + intros (i & -> & Hi). apply list_elem_of_filter in Hi. tauto.
    + intros Hx. rewrite Forall_forall in Hf. pose proof (Hf x Hx) as Hr.
      unfold row_label in Hr. exists (Z.to_nat x).
      split; [lia|]. apply list_elem_of_filter.
      split; [rewrite Z2Nat.id by lia; exact Hx|].
      apply elem_of_seq. lia.
Qed.

Lemma kept_rows_count {Row : Type} (df : list Row) (labels : list Z) :
  Forall (row_label (length df)) labels ->
  (length (filter (fun ir : nat * Row => Z.of_nat ir.1 ∉ labels)
             (labelled df)).*2
   + length (remove_dups labels) = length df)%nat.
Proof.
  intros Hf. rewrite length_fmap. unfold labelled.
  pose proof (filter_zip_fst_length (fun i : nat => Z.of_nat i ∉ labels)
                (seq 0 (length df)) df (length_seq _ _)) as Hz.
  cbv beta in Hz. rewrite Hz.
  rewrite <- (selected_labels_count _ _ Hf).
  pose proof (filter_app_complement (fun i : nat => Z.of_nat i ∈ labels)
                (seq 0 (length df))) as Hp.
  apply Permutation_length in Hp. rewrite length_app, length_seq in Hp. lia.
Qed.

Section DeleteProperties.

Context {Row : Type}.
Variable read_csv_safe : list (csv_write Row) -> option (list Row).

Lemma delete_selected_mistakes_removes_holds (selected : list Z)
    (ws : list (csv_write Row)) (df : list Row) :
  read_csv_safe ws = Some df -> df <> [] -> selected <> [] ->
  Forall (row_label (length df)) selected ->
  exists kept,
    delete_selected_mistakes read_csv_safe selected (Some ws)
    = (true, Some [Overwrite kept]) /\
    kept = (filter (fun ir : nat * Row => Z.of_nat ir.1 ∉ selected)
              (labelled df)).*2 /\
    (length kept + length (remove_dups selected) = length df)%nat.
Proof.
  intros Hr Hdf Hsel Hf. eexists. split; [|split; [reflexivity|]].
  - unfold delete_selected_mistakes.
    destruct selected as [|l sel]; [congruence|]. rewrite Hr.
    destruct df as [|r df']; [congruence|].
    rewrite (df_drop_Some _ _ Hf). unfold labelled.
    rewrite <- (drop_rows_spec (l :: sel) (r :: df') 0). reflexivity.
  - apply kept_rows_count, Hf.
Qed.

(** When the log can be read, is not empty, and every selected label is
    a row label, [delete_selected_mistakes] writes back the rows whose
    label is not selected, in their order, and returns [True]. *)
Theorem delete_selected_mistakes_removes (selected : list Z)
    (ws : list (csv_write Row)) (df : list Row) :
  read_csv_safe ws = Some df -> df <> [] -> selected <> [] ->
  Forall (row_label (length df)) selected ->
  exists kept,
    delete_selected_mistakes read_csv_safe selected (Some ws)
    = (true, Some [Overwrite kept]) /\
    kept = (filter (fun ir : nat * Row => Z.of_nat ir.1 ∉ selected)
              (labelled df)).*2 /\
    (length kept + length (remove_dups selected) = length df)%nat.
Proof. apply delete_selected_mistakes_removes_holds. Qed.

(** Whenever [delete_selected_mistakes] returns [False] the file is
    untouched; this is the case for an empty selection, a missing,
    unreadable or empty log, and as soon as one selected label is not a
    row label: then none of the selected rows is deleted. *)
Theorem delete_selected_mistakes_failure (selected : list Z)
    (file : csv_file Row) :
  ((delete_selected_mistakes read_csv_safe selected file).1 = false ->
   (delete_selected_mistakes read_csv_safe selected file).2 = file) /\
  (selected = [] \/ file = None \/
   (exists ws, file = Some ws /\
      (read_csv_safe ws = None \/ read_csv_safe ws = Some [] \/
       exists df l, read_csv_safe ws = Some df /\ l ∈ selected /\
                    ~ row_label (length df) l)) ->
   delete_selected_mistakes read_csv_safe selected file = (false, file)).
Proof.
  split.
  - unfold delete_selected_mistakes.
    destruct selected as [|l sel]; [reflexivity|].
    destruct file as [ws|]; [|reflexivity].
    destruct (read_csv_safe ws) as [[|r df]|]; try reflexivity.
    destruct (df_drop (r :: df) (l :: sel)); [discriminate | reflexivity].
  - unfold delete_selected_mistakes.
    intros [-> | [-> | (ws & -> & Hcase)]].
    + reflexivity.
    + destruct selected; reflexivity.
    + destruct selected as [|l0 sel]; [reflexivity|].
      destruct Hcase as [-> | [-> | (df & l & -> & Hl & Hn)]];
        [reflexivity | reflexivity |].
      rewrite (df_drop_None df (l0 :: sel) l Hl Hn).
      destruct df; reflexivity.
Qed.

End DeleteProperties.

Lemma delete_selected_mistakes_removes_witness :
  exists kept,
    delete_selected_mistakes sample_reader [1] (Some [Overwrite [10; 20; 30]%nat])
    = (true, Some [Overwrite kept]) /\
    kept = (filter (fun ir : nat * nat => Z.of_nat ir.1 ∉ [1])
              (labelled [10; 20; 30]%nat)).*2 /\
    (length kept + length (remove_dups [1]) = length [10; 20; 30]%nat)%nat.
Proof.
  apply (delete_selected_mistakes_removes sample_reader [1]
           [Overwrite [10; 20; 30]%nat] [10; 20; 30]%nat).
  - reflexivity.
  - discriminate.
  - discriminate.
  - repeat constructor; unfold row_label; simpl; lia.
Defined.

Lemma delete_selected_mistakes_failure_witness :
  delete_selected_mistakes sample_reader [1; 3]
    (Some [Overwrite [10; 20; 30]%nat])
  = (false, Some [Overwrite [10; 20; 30]%nat]).
Proof.
  apply (proj2 (delete_selected_mistakes_failure sample_reader [1; 3]
                  (Some [Overwrite [10; 20; 30]%nat]))).
  right. right. exists [Overwrite [10; 20; 30]%nat]. split; [reflexivity|].
  right. right. exists [10; 20; 30]%nat, 3. split; [reflexivity|].
  split; [right; left|]. unfold row_label. simpl. lia.
Defined.

(** * Merging an uploaded log *)

Section MergeProperties.

Context {Row Cell Upload : Type} `{EqDecision Cell}.
Variable timestamp : Row -> Cell.
Variable read_csv_safe : list (csv_write Row) -> option (list Row).
Variable read_upload : Upload -> option (list Row).

Lemma drop_duplicates_last_sublist (df : list Row) :
  sublist (drop_duplicates_last timestamp df) df.
Proof.
  induction df as [|r rest IH]; [constructor|]. simpl.
  case_bool_decide; [apply sublist_cons, IH | apply sublist_skip, IH].
Qed.

Lemma drop_duplicates_last_keys (df : list Row) (t : Cell) :
  t ∈ timestamp <$> drop_duplicates_last timestamp df <->
  t ∈ timestamp <$> df.
Proof.
  induction df as [|r rest IH]; [reflexivity|]. simpl.
  case_bool_decide as Hin.
  - rewrite IH. rewrite elem_of_cons. split; [auto|].
    intros [-> | ?]; [exact Hin | assumption].
  - rewrite fmap_cons, !elem_of_cons, IH. reflexivity.
Qed.

Lemma drop_duplicates_last_NoDup (df : list Row) :
  NoDup (timestamp <$> drop_duplicates_last timestamp df).
Proof.
  induction df as [|r rest IH]; [constructor|]. simpl.
  case_bool_decide as Hin; [exact IH|].
  rewrite fmap_cons. constructor; [|exact IH].
  rewrite drop_duplicates_last_keys. exact Hin.
Qed.

Lemma drop_duplicates_last_app (current old : list Row) (r : Row) :
  r ∈ drop_duplicates_last timestamp (current ++ old) ->
  timestamp r ∈ timestamp <$> old ->
  r ∈ drop_duplicates_last timestamp old.
Proof.
  induction current as [|x current IH]; [auto|]. simpl.
  case_bool_decide as Hin; [exact IH|].
  intros [-> | Hr]%elem_of_cons Hold; [|exact (IH Hr Hold)].
  exfalso. apply Hin. rewrite fmap_app, elem_of_app. auto.
Qed.

(** [load_old_log] on an upload that can be read returns [True] and
    writes a table over the log.  When the log exists and can be read,
    the table is the current rows followed by the uploaded ones with the
    doubled timestamps removed: no timestamp occurs twice, none is lost,
    the order is kept, and a row whose timestamp is in the upload comes
    from the upload.  When the log is missing or cannot be read, the
    table is the upload as it is, doubled timestamps included. *)
Theorem load_old_log_result (u : Upload) (old : list Row)
    (file : csv_file Row) :
  read_upload u = Some old ->
  exists written,
    load_old_log timestamp read_csv_safe read_upload (Some u) file
    = (true, Some [Overwrite written]) /\
    (forall ws current,
       file = Some ws -> read_csv_safe ws = Some current ->
       sublist written (current ++ old) /\
       NoDup (timestamp <$> written) /\
       (forall t, t ∈ timestamp <$> written <->
                  t ∈ timestamp <$> (current ++ old)) /\
       (forall r, r ∈ written -> timestamp r ∈ timestamp <$> old -> r ∈ old)) /\
    (file = None \/ (exists ws, file = Some ws /\ read_csv_safe ws = None) ->
     written = old).
Proof.
  intros Hu. unfold load_old_log. rewrite Hu. eexists. split; [reflexivity|].
  split.
  - intros ws current -> ->.
    split; [apply drop_duplicates_last_sublist|].
    split; [apply drop_duplicates_last_NoDup|].
    split; [apply drop_duplicates_last_keys|].
    intros r Hr Hold.
    pose proof (drop_duplicates_last_app _ _ _ Hr Hold) as Hin.
    exact (elem_of_sublist _ _ _ Hin (drop_duplicates_last_sublist old)).
  - intros [-> | (ws & -> & ->)]; reflexivity.
Qed.

(** [process_uploaded_log] does nothing while a parsed record is
    pending, and it merges a set of uploaded files once: a second call
    on the same files leaves the session and the file as the first call
    left them. *)
Theorem process_uploaded_log_once (uploaded_files : list Upload)
    (s : session) (file : csv_file Row) :
  (parsed_data_truthy s = true ->
   process_uploaded_log timestamp read_csv_safe read_upload uploaded_files
     s file = (s, file)) /\
  process_uploaded_log timestamp read_csv_safe read_upload uploaded_files
    (process_uploaded_log timestamp read_csv_safe read_upload uploaded_files
       s file).1
    (process_uploaded_log timestamp read_csv_safe read_upload uploaded_files
       s file).2
  = process_uploaded_log timestamp read_csv_safe read_upload uploaded_files
      s file.
Proof.
  unfold process_uploaded_log, parsed_data_truthy. split.
  - intros ->. reflexivity.
  - destruct s as [pd saved tk nk fp sel sdm].
    cbn [parsed_data files_processed saved_successfully text_input_key
         notes_input_key selected_for_deletion show_delete_mode].
    remember (match pd with Some d => dict_truthy d | None => false end)
      as pending eqn:Hpd.
    destruct pending.
    + cbn [fst snd parsed_data]. rewrite <- Hpd. reflexivity.
    + destruct uploaded_files as [|u rest].
      * cbn [fst snd parsed_data]. rewrite <- Hpd. reflexivity.
      * destruct fp; cbn [negb].
        -- cbn [fst snd parsed_data files_processed]. rewrite <- Hpd.
           reflexivity.
        -- destruct (load_all timestamp read_csv_safe read_upload (u :: rest) 0 file)
             as [n file'] eqn:Hl.
           cbn [fst snd parsed_data files_processed negb]. rewrite <- Hpd.
           reflexivity.
Qed.

End MergeProperties.

Lemma load_old_log_result_witness :
  exists written,
    load_old_log (fun r : nat => r) sample_reader sample_upload
      (Some [3; 4]%nat) (Some [Overwrite [1; 2; 3]%nat])
    = (true, Some [Overwrite written]) /\
    (forall ws current,
       Some [Overwrite [1; 2; 3]%nat] = Some ws ->
       sample_reader ws = Some current ->
       sublist written (current ++ [3; 4]%nat) /\
       NoDup ((fun r : nat => r) <$> written) /\
       (forall t, t ∈ (fun r : nat => r) <$> written <->
                  t ∈ (fun r : nat => r) <$> (current ++ [3; 4]%nat)) /\
       (forall r, r ∈ written ->
                  r ∈ (fun r : nat => r) <$> [3; 4]%nat -> r ∈ [3; 4]%nat)) /\
    (Some [Overwrite [1; 2; 3]%nat] = None \/
     (exists ws, Some [Overwrite [1; 2; 3]%nat] = Some ws /\
                 sample_reader ws = None) ->
     written = [3; 4]%nat).
Proof.
  apply (load_old_log_result (fun r : nat => r) sample_reader sample_upload
           [3; 4]%nat [3; 4]%nat (Some [Overwrite [1; 2; 3]%nat])).
  reflexivity.
Defined.

Lemma process_uploaded_log_once_witness :
  process_uploaded_log (fun r : nat => r) sample_reader sample_upload
    [[3; 4]%nat] pending_session (Some [Overwrite [1; 2; 3]%nat])
  = (pending_session, Some [Overwrite [1; 2; 3]%nat]).
Proof.
  apply (proj1 (process_uploaded_log_once (fun r : nat => r) sample_reader
                  sample_upload [[3; 4]%nat] pending_session
                  (Some [Overwrite [1; 2; 3]%nat]))).
  by_eval.
Defined.

(** * Choosing the rows to delete *)

Lemma list_remove_spec (x : Z) (l : list Z) :
  NoDup l ->
  NoDup (list_remove x l) /\
  forall j, j ∈ list_remove x l <-> j ∈ l /\ j <> x.
Proof.
  induction l as [|y t IH]; intros Hnd.
  - split; [constructor|]. intros j. simpl. rewrite elem_of_nil. tauto.
  - apply NoDup_cons in Hnd as [Hy Hnd]. simpl. case_bool_decide as Hyx.
    + subst y. split; [exact Hnd|]. intros j. rewrite elem_of_cons.
      split; [intros Hj; split; [auto | congruence] | tauto].
    + destruct (IH Hnd) as [IH1 IH2]. split.
      * constructor; [|exact IH1]. rewrite IH2. tauto.
      * intros j. rewrite !elem_of_cons, IH2. split.
        -- intros [-> | [? ?]]; auto.
        -- intros [[-> | ?] ?]; auto.
Qed.

Lemma update_selected_spec (idx : Z) (b : bool) (selected : list Z) :
  NoDup selected ->
  NoDup (update_selected idx b selected) /\
  forall j,
    j ∈ update_selected idx b selected <->
    (j = idx /\ b = true) \/ (j <> idx /\ j ∈ selected).
Proof.
  intros Hnd. unfold update_selected.
  destruct b; cbn [andb negb]; case_bool_decide as Hin; cbn [negb].
  - split; [exact Hnd|]. intros j.
    destruct (decide (j = idx)) as [->|Hne]; [tauto|]. tauto.
  - split.
    + apply NoDup_app. split; [exact Hnd|]. split; [|apply NoDup_singleton].
      intros x Hx ->%list_elem_of_singleton. auto.
    + intros j. rewrite elem_of_app, list_elem_of_singleton.
      destruct (decide (j = idx)) as [->|Hne]; [tauto|]. tauto.
  - destruct (list_remove_spec idx selected Hnd) as [H1 H2].
    split; [exact H1|]. intros j. rewrite H2.
    split; [intros [? ?]; right; auto|].
    intros [[_ ?] | [? ?]]; [discriminate | auto].
  - split; [exact Hnd|]. intros j.
    split; [intros Hj; right; split; [congruence | exact Hj]|].
    intros [[_ ?] | [_ ?]]; [discriminate | assumption].
Qed.

Lemma select_rows_spec_holds (indices : list Z) (checked : Z -> bool) :
  forall selected : list Z,
    NoDup indices -> NoDup selected ->
    NoDup (select_rows indices checked selected) /\
    (forall i, i ∈ indices ->
       (i ∈ select_rows indices checked selected <-> checked i = true)) /\
    (forall i, i ∉ indices ->
       (i ∈ select_rows indices checked selected <-> i ∈ selected)).
Proof.
  induction indices as [|idx rest IH]; intros selected Hni Hns.
  - split; [exact Hns|]. split; [intros i Hi; inversion Hi | reflexivity].
  - apply NoDup_cons in Hni as [Hidx Hni]. cbn [select_rows].
    destruct (update_selected_spec idx (checked idx) selected Hns) as [Hu1 Hu2].
    destruct (IH _ Hni Hu1) as (H1 & H2 & H3).
    split; [exact H1|]. split.
    + intros i [-> | Hi]%elem_of_cons; [|apply H2, Hi].
      rewrite (H3 _ Hidx), Hu2. split; [intros [[_ ?] | [? _]]; congruence | auto].
    + intros i [Hne Hi]%not_elem_of_cons. rewrite (H3 _ Hi), Hu2.
      split; [intros [[? _] | [_ ?]]; [congruence | assumption] | auto].
Qed.

(** The loop over the check boxes of the displayed rows keeps
    [selected_for_deletion] free of doubles; after it a displayed row is
    selected exactly when its box is checked, and the selection of the
    rows that are not displayed is as before. *)
Theorem select_rows_spec (indices : list Z) (checked : Z -> bool) :
  forall selected : list Z,
    NoDup indices -> NoDup selected ->
    NoDup (select_rows indices checked selected) /\
    (forall i, i ∈ indices ->
       (i ∈ select_rows indices checked selected <-> checked i = true)) /\
    (forall i, i ∉ indices ->
       (i ∈ select_rows indices checked selected <-> i ∈ selected)).
Proof. apply select_rows_spec_holds. Qed.

Lemma select_rows_spec_witness :
  NoDup (select_rows [2; 1; 0] (fun i => i =? 1) [0]) /\
  (forall i, i ∈ [2; 1; 0] ->
     (i ∈ select_rows [2; 1; 0] (fun i => i =? 1) [0] <-> (i =? 1) = true)) /\
  (forall i, i ∉ [2; 1; 0] ->
     (i ∈ select_rows [2; 1; 0] (fun i => i =? 1) [0] <-> i ∈ [0])).
Proof.
  apply (select_rows_spec [2; 1; 0] (fun i => i =? 1) [0]).
  - apply (bool_decide_unpack _). vm_compute. exact I.
  - apply NoDup_singleton.
Defined.

(** * Deleting the chosen rows *)

Lemma display_indices_reverse (n : nat) :
  display_indices n = reverse (Z.of_nat <$> seq (n - 10) (Nat.min n 10)).
Proof. unfold display_indices. rewrite rev_alt. reflexivity. Qed.

Lemma display_indices_elem (n : nat) (l : Z) :
  l ∈ display_indices n <-> Z.of_nat (n - 10) <= l < Z.of_nat n.
Proof.
  rewrite display_indices_reverse, elem_of_reverse, list_elem_of_fmap. split.
  - intros (i & -> & Hi%elem_of_seq). lia.
  - intros Hl. exists (Z.to_nat l).
    split; [symmetry; apply Z2Nat.id; lia|]. apply elem_of_seq. lia.
Qed.

Lemma display_indices_NoDup (n : nat) : NoDup (display_indices n).
Proof.
  rewrite display_indices_reverse, reverse_Permutation.
  apply (NoDup_fmap_2 Z.of_nat), NoDup_seq.
Qed.

(** The rows shown in delete mode are the last ten of the log, the
    latest first.  Whatever boxes are checked, starting from an empty
    selection, every selected label is a row label: if anything is
    selected, [delete_selected_mistakes] succeeds, the rows it keeps are
    those that are not both displayed and checked, and the number of rows
    it removes is the length of the selection. *)
Theorem delete_of_displayed_selection {Row : Type}
    (read_csv_safe : list (csv_write Row) -> option (list Row))
    (ws : list (csv_write Row)) (df : list Row) (checked : Z -> bool) :
  read_csv_safe ws = Some df ->
  select_rows (display_indices (length df)) checked [] <> [] ->
  (forall i : nat,
     (i < Nat.min (length df) 10)%nat ->
     display_indices (length df) !! i
     = Some (Z.of_nat (length df) - 1 - Z.of_nat i)) /\
  exists kept,
    delete_selected_mistakes read_csv_safe
      (select_rows (display_indices (length df)) checked []) (Some ws)
    = (true, Some [Overwrite kept]) /\
    kept = (filter
              (fun ir : nat * Row =>
                 ~ (Z.of_nat ir.1 ∈ display_indices (length df) /\
                    checked (Z.of_nat ir.1) = true))
              (labelled df)).*2 /\
    (length kept
     + length (select_rows (display_indices (length df)) checked [])
     = length df)%nat.
Proof.
  intros Hr Hsel.
  set (n := length df) in *.
  set (sel := select_rows (display_indices n) checked []) in *.
  destruct (select_rows_spec_holds (display_indices n) checked []
              (display_indices_NoDup n) (NoDup_nil_2)) as (Hnd & Hin & Hout).
  fold sel in Hnd, Hin, Hout.
  assert (Hmem : forall l, l ∈ sel <->
                   l ∈ display_indices n /\ checked l = true).
  { intros l. destruct (decide (l ∈ display_indices n)) as [Hd|Hd].
    - rewrite (Hin l Hd). tauto.
    - rewrite (Hout l Hd), elem_of_nil. tauto. }
  assert (Hlabels : Forall (row_label n) sel).
  { apply Forall_forall. intros l [Hd _]%Hmem.
    apply display_indices_elem in Hd. unfold row_label. lia. }
  assert (Hdf : df <> []).
  { intros ->. apply Hsel. destruct sel as [|l sel'] eqn:E; [reflexivity|].
    apply Forall_cons in Hlabels as [Hl _]. unfold row_label in Hl.
    subst n. simpl in Hl. lia. }
  split.
  - intros i Hi. rewrite display_indices_reverse.
    rewrite reverse_lookup
      by (rewrite length_fmap, length_seq; exact Hi).
    rewrite length_fmap, length_seq, list_lookup_fmap.
    rewrite lookup_seq_lt by lia. simpl. f_equal. lia.
  - destruct (delete_selected_mistakes_removes_holds read_csv_safe sel ws df
                Hr Hdf Hsel Hlabels) as (kept & Hdel & Hkept & Hlen).
    exists kept. split; [exact Hdel|]. split.
    + rewrite Hkept. f_equal. apply list_filter_iff.
      intros [i r]. simpl. rewrite Hmem. reflexivity.
    + replace (length sel) with (length (remove_dups sel)); [exact Hlen|].
      apply Permutation_length, NoDup_Permutation;
        [apply NoDup_remove_dups | exact Hnd | apply elem_of_remove_dups].
Qed.

Lemma delete_of_displayed_selection_witness :
  (forall i : nat,
     (i < Nat.min (length [10; 20; 30]%nat) 10)%nat ->
     display_indices (length [10; 20; 30]%nat) !! i
     = Some (Z.of_nat (length [10; 20; 30]%nat) - 1 - Z.of_nat i)) /\
  exists kept,
    delete_selected_mistakes sample_reader
      (select_rows (display_indices (length [10; 20; 30]%nat))
         (fun i : Z => (i =? 1)%Z) [])
      (Some [Overwrite [10; 20; 30]%nat])
    = (true, Some [Overwrite kept]) /\
    kept = (filter
              (fun ir : nat * nat =>
                 ~ (Z.of_nat ir.1 ∈ display_indices (length [10; 20; 30]%nat) /\
                    (Z.of_nat ir.1 =? 1) = true))
              (labelled [10; 20; 30]%nat)).*2 /\
    (length kept
     + length (select_rows (display_indices (length [10; 20; 30]%nat))
                 (fun i : Z => (i =? 1)%Z) [])
     = length [10; 20; 30]%nat)%nat.
Proof.
  apply (delete_of_displayed_selection sample_reader
           [Overwrite [10; 20; 30]%nat] [10; 20; 30]%nat (fun i : Z => (i =? 1)%Z)).
  - reflexivity.
  - vm_compute. discriminate.
Defined.

(** * The text box *)

Lemma is_valid_data_total (data : option dict) :
  exists verdict, is_valid_data data = Return verdict.
Proof.
  destruct data as [d|]; [|exists false; reflexivity].
  eexists. apply is_valid_data_spec.
Qed.

Lemma parse_text_total (lim : nat) (raw_text : str) :
  exists r, parse_text lim raw_text = Return r.
Proof.
  destruct (blank raw_text) eqn:Hb.
  - exists None. apply parse_text_blank, Hb.
  - destruct (parse_text_record lim raw_text Hb) as (d & _ & Hp). eauto.
Qed.

Lemma parse_text_record_truthy (lim : nat) (raw_text : str) (d : dict) :
  parse_text lim raw_text = Return (Some d) -> dict_truthy d = true.
Proof.
  intros Hp. unfold dict_truthy. apply negb_true_iff, bool_decide_eq_false_2.
  intros ->. destruct (parse_text_keys_holds lim raw_text ∅ Hp) as (Hk & _).
  assert (Hc : is_Some ((∅ : dict) !! "Category"))
    by (apply Hk; apply (bool_decide_unpack _); vm_compute; exact I).
  rewrite lookup_empty in Hc. destruct Hc as [? Hc]. discriminate.
Qed.

(** While a record is pending the text box is not parsed again: whatever
    text it holds, the session stays as it is.  A record that
    [parse_text] returned is pending whether or not it is valid, so after
    one text that is not blank has been parsed, no other text is parsed
    until the record is cleared. *)
Theorem on_text_input_keeps_pending (lim : nat) (s : session) :
  (parsed_data_truthy s = true ->
   forall raw_text_input,
   exists v, on_text_input lim raw_text_input s = Return (s, v)) /\
  (parsed_data_truthy s = false ->
   forall first_text,
     blank first_text = false ->
     exists d v,
       parse_text lim first_text = Return (Some d) /\
       on_text_input lim first_text s
       = Return (with_parsed_data s (Some d), v) /\
       forall next_text,
       exists v',
         on_text_input lim next_text (with_parsed_data s (Some d))
         = Return (with_parsed_data s (Some d), v')).
Proof.
  assert (Hkeep : forall s0, parsed_data_truthy s0 = true ->
            forall raw, exists v, on_text_input lim raw s0 = Return (s0, v)).
  { intros s0 Hp raw. unfold on_text_input. rewrite Hp, andb_false_r.
    cbn [bind]. rewrite Hp.
    destruct (is_valid_data_total (parsed_data s0)) as (verdict & ->).
    cbn [bind].
    destruct verdict; [eauto|]. destruct (str_truthy raw); eauto. }
  split; [exact (Hkeep s)|].
  intros Hnone first_text Hb.
  destruct (parse_text_record lim first_text Hb) as (d & _ & Hp).
  pose proof (parse_text_record_truthy lim first_text d Hp) as Ht.
  assert (Hpending : parsed_data_truthy (with_parsed_data s (Some d)) = true)
    by exact Ht.
  assert (Hne : str_truthy first_text = true)
    by (destruct first_text; [discriminate | reflexivity]).
  destruct (Hkeep _ Hpending first_text) as (v & Hv).
  exists d. 
  assert (Hfirst : exists v0, on_text_input lim first_text s
                   = Return (with_parsed_data s (Some d), v0)).
  { unfold on_text_input. rewrite Hne, Hnone. cbn [andb negb].
    rewrite Hp. cbn [bind]. rewrite Hpending.
    destruct (is_valid_data_total (parsed_data (with_parsed_data s (Some d))))
      as (verdict & ->).
    cbn [bind]. destruct verdict; eauto. }
  destruct Hfirst as (v0 & Hfirst). exists v0.
  split; [exact Hp|]. split; [exact Hfirst|].
  intros next_text. apply (Hkeep _ Hpending).
Qed.

Lemma on_text_input_keeps_pending_witness :
  (exists v,
     on_text_input 4300 (py "Category: Ethics") pending_session
     = Return (pending_session, v)) /\
  (exists d v,
     parse_text 4300 (py "Result: Correct") = Return (Some d) /\
     on_text_input 4300 (py "Result: Correct") fresh_session
     = Return (with_parsed_data fresh_session (Some d), v) /\
     forall next_text,
     exists v',
       on_text_input 4300 next_text (with_parsed_data fresh_session (Some d))
       = Return (with_parsed_data fresh_session (Some d), v')).
Proof.
  split.
  - apply (proj1 (on_text_input_keeps_pending 4300 pending_session)).
    reflexivity.
  - apply (proj2 (on_text_input_keeps_pending 4300 fresh_session));
      reflexivity.
Defined.

(** The error type buttons are shown exactly when a record is pending
    whose Category and Result are not blank; a text that is not empty
    and gives no such record gets the warning. *)
Theorem on_text_input_view (lim : nat) (raw_text_input : str) (s : session) :
  exists s' v,
    on_text_input lim raw_text_input s = Return (s', v) /\
    (v = ErrorTypeButtons <->
     exists d,
       parsed_data s' = Some d /\
       essential_ok (d !! "Category") && essential_ok (d !! "Result") = true) /\
    (v <> ErrorTypeButtons ->
     (raw_text_input <> [] <-> exists shown, v = Warning shown)).
Proof.
  unfold on_text_input.
  assert (Hs1 : exists s1,
             (if str_truthy raw_text_input && negb (parsed_data_truthy s)
              then r <- parse_text lim raw_text_input ;;;
                   Return (with_parsed_data s r)
              else Return s) = Return s1).
  { destruct (_ && _); [|eauto].
    destruct (parse_text_total lim raw_text_input) as (r & ->).
    cbn [bind]. eauto. }
  destruct Hs1 as (s1 & ->). cbn [bind]. exists s1.
  unfold parsed_data_truthy.
  destruct (parsed_data s1) as [d|] eqn:Hd.
  - destruct (dict_truthy d) eqn:Ht.
    + rewrite is_valid_data_spec. cbn [bind].
      destruct (essential_ok (d !! "Category") && essential_ok (d !! "Result"))
        eqn:Hok.
      * eexists. split; [reflexivity|]. split; [|congruence].
        split; [eauto | reflexivity].
      * destruct raw_text_input as [|c t]; cbn [str_truthy];
          (eexists; split; [reflexivity|]; split;
           [split; [discriminate | intros (d' & [= <-] & H); congruence]|]).
        -- intros _. split; [congruence | intros (? & ?); discriminate].
        -- intros _. split; [eauto | discriminate].
    + cbn [bind].
      assert (Hnok : essential_ok (d !! "Category")
                     && essential_ok (d !! "Result") = false).
      { unfold dict_truthy in Ht. apply negb_false_iff in Ht.
        apply bool_decide_eq_true_1 in Ht. subst d.
        rewrite !lookup_empty. reflexivity. }
      destruct raw_text_input as [|c t]; cbn [str_truthy];
        (eexists; split; [reflexivity|]; split;
         [split; [discriminate | intros (d' & [= <-] & H); congruence]|]).
      * intros _. split; [congruence | intros (? & ?); discriminate].
      * intros _. split; [eauto | discriminate].
  - cbn [bind].
    destruct raw_text_input as [|c t]; cbn [str_truthy];
      (eexists; split; [reflexivity|]; split;
       [split; [discriminate | intros (d' & ? & _); discriminate]|]).
    + intros _. split; [congruence | intros (? & ?); discriminate].
    + intros _. split; [eauto | discriminate].
Qed.
